(** * Dump ingestion and replay: [DB Migration using sql file/dump.py]

    A shallow embedding of the statement tokenizer [_sql_statement_stream]
    and of the replay driver [migrate_sql_to_mysql], with the properties of
    the specification stated over them.

    Python [str] values are lists of characters.  The character type is
    [ascii], read as the code points 0..255; [isspace] is Python's
    [str.isspace] on that range. *)

From Stdlib Require Import Ascii String List Bool Arith ZArith Lia.
Import ListNotations.
Local Open Scope list_scope.

(** ** Python strings *)

Module PyStr.

Definition str := list ascii.

Definition py (s : string) : str := list_ascii_of_string s.

Definition LF : ascii := Ascii.ascii_of_nat 10.
Definition CR : ascii := Ascii.ascii_of_nat 13.

(** [str.isspace] for one character: TAB, LF, VT, FF, CR, the separators
    FS, GS, RS, US, the space, NEL (0x85) and NBSP (0xA0). *)
Definition isspace (c : ascii) : bool :=
  let n := nat_of_ascii c in
  ((9 <=? n) && (n <=? 13)) || ((28 <=? n) && (n <=? 32))
  || (n =? 133) || (n =? 160).

(** [str.upper] on ASCII letters.  The code points 128..255 have no upper
    case form made of ASCII characters, so leaving them in place does not
    change any comparison with an ASCII token. *)
Definition upper_char (c : ascii) : ascii :=
  let n := nat_of_ascii c in
  if (97 <=? n) && (n <=? 122) then ascii_of_nat (n - 32) else c.

Definition upper (s : str) : str := map upper_char s.

Fixpoint lstrip (s : str) : str :=
  match s with
  | [] => []
  | c :: t => if isspace c then lstrip t else s
  end.

Definition rstrip (s : str) : str := rev (lstrip (rev s)).

Definition strip (s : str) : str := rstrip (lstrip s).

(** [s.startswith(p)] *)
Fixpoint startswith (s p : str) : bool :=
  match p, s with
  | [], _ => true
  | _ :: _, [] => false
  | a :: p', b :: s' => Ascii.eqb a b && startswith s' p'
  end.

(** [s.endswith(p)] *)
Definition endswith (s p : str) : bool := startswith (rev s) (rev p).

(** [s.find(sub)]: lowest index of an occurrence, [None] for -1. *)
Fixpoint find0 (s sub : str) : option nat :=
  if startswith s sub then Some 0
  else match s with
       | [] => None
       | _ :: t => option_map S (find0 t sub)
       end.

(** [s.find(sub, start)] for [start >= 0]. *)
Definition find (s sub : str) (start : nat) : option nat :=
  if start <=? length s
  then option_map (fun i => start + i) (find0 (skipn start s) sub)
  else None.

(** [sub in s] *)
Definition contains (s sub : str) : bool :=
  match find0 s sub with Some _ => true | None => false end.

(** Truthiness of a string or of a list. *)
Definition truthy {A} (l : list A) : bool :=
  match l with [] => false | _ :: _ => true end.

(** [s[:-n]] for a length [n]: the empty string when [n = 0] (as [s[:0]]),
    all but the last [n] characters otherwise. *)
Definition slice_to_neg (s : str) (n : nat) : str :=
  match n with
  | 0 => []
  | _ => firstn (length s - n) s
  end.

(** ["".join(l)] *)
Definition join (l : list str) : str := concat l.

End PyStr.
Import PyStr.

(** ** The statement tokenizer *)

Record TokenizerState := mkState {
  current_delim : str;
  buf : list str;
  in_block_comment : bool
}.

Definition delim_token : str := py "DELIMITER ".

Definition initial_state : TokenizerState :=
  {| current_delim := py ";"; buf := []; in_block_comment := false |}.

(** Lines 66-72: while inside a block comment, look for the close marker;
    [None] is the [continue] of a line that does not close it. *)
Definition block_comment_continuation (inside : bool) (line : str)
  : option str :=
  if inside then
    match find line (py "*/") 0 with
    | Some end_idx => Some (skipn (end_idx + 2) line)
    | None => None
    end
  else Some line.

(** Lines 75-84: the [while "/*" in line] loop.  Each turn removes at least
    the four characters of a span, so [length line] turns are enough; see
    [strip_inline_fuel_enough]. *)
Fixpoint strip_inline_fuel (fuel : nat) (line : str) : str * bool :=
  match fuel with
  | 0 => (line, false)
  | S fuel' =>
      match find line (py "/*") 0 with
      | None => (line, false)
      | Some start =>
          match find line (py "*/") (start + 2) with
          | None => (firstn start line, true)
          | Some e =>
              strip_inline_fuel fuel' (firstn start line ++ skipn (e + 2) line)
          end
      end
  end.

Definition strip_inline (line : str) : str * bool :=
  strip_inline_fuel (S (length line)) line.

(** Lines 66-87: the comment handling of one line.  The remaining line when
    processing goes on ([None] for a [continue]) and the new value of
    [in_block_comment]. *)
Definition comment_pass (inside : bool) (raw_line : str)
  : option str * bool :=
  match block_comment_continuation inside raw_line with
  | None => (None, inside)
  | Some line0 =>
      let '(line, opened) := strip_inline line0 in
      if opened then (None, true) else (Some line, false)
  end.

(** Lines 99-104: the flush of a directive. *)
Definition flush_partial (b : list str) : option str :=
  if truthy b then
    let partial := strip (join b) in
    if truthy partial then Some partial else None
  else None.

(** One turn of the [for raw_line in text_stream] loop: the statement it
    yields, if any, and the state it leaves. *)
Definition step (st : TokenizerState) (raw_line : str)
  : option str * TokenizerState :=
  match comment_pass (in_block_comment st) raw_line with
  | (None, inside) => (None, mkState (current_delim st) (buf st) inside)
  | (Some line, inside) =>
      let check := strip line in
      if negb (truthy check) then
        (None, mkState (current_delim st) (buf st) inside)
      else if startswith (upper check) (py "DELIMITER ") then
        (flush_partial (buf st),
         mkState (strip (skipn (length delim_token) check)) [] inside)
      else if startswith check (py "--") || startswith check (py "#") then
        (None, mkState (current_delim st) (buf st) inside)
      else
        let buf' := buf st ++ [line] in
        let joined := join buf' in
        let test := rstrip joined in
        if truthy (current_delim st) && endswith test (current_delim st)
        then
          let stmt := strip (slice_to_neg test (length (current_delim st))) in
          ((if truthy stmt then Some stmt else None),
           mkState (current_delim st) [] inside)
        else
          (None, mkState (current_delim st) buf' inside)
  end.

Definition opt_list {A} (o : option A) : list A :=
  match o with Some a => [a] | None => [] end.

(** The loop over the lines read: what was yielded and the state at
    exhaustion. *)
Fixpoint run (st : TokenizerState) (lines : list str)
  : list str * TokenizerState :=
  match lines with
  | [] => ([], st)
  | l :: rest =>
      let '(o, st1) := step st l in
      let '(out, st2) := run st1 rest in
      (opt_list o ++ out, st2)
  end.

(** Lines 127-129: the flush after the loop. *)
Definition flush_tail (st : TokenizerState) : list str :=
  let tail := strip (join (buf st)) in
  if truthy tail then [tail] else [].

Definition stream_from (st : TokenizerState) (lines : list str) : list str :=
  let '(out, st') := run st lines in out ++ flush_tail st'.

(** The generator, run to exhaustion on the lines of the stream. *)
Definition _sql_statement_stream (lines : list str) : list str :=
  stream_from initial_state lines.

(** Iterating [io.StringIO(text)]: lines end at each LF, which they keep. *)
Fixpoint readlines (text : str) : list str :=
  match text with
  | [] => []
  | c :: t =>
      if Ascii.eqb c LF then [c] :: readlines t
      else match readlines t with
           | [] => [[c]]
           | l :: ls => (c :: l) :: ls
           end
  end.

Definition nl : str := [LF].

(** ** The replay driver *)

(** What a call can raise: [mysql.Error], or any other [Exception]. *)
Inductive exn := MysqlError | OtherError.

(** The calls of [migrate_sql_to_mysql] into the connector and the loader,
    by call site.  [Execute n stmt] is [cur.execute(stmt)] of line 187 on
    the statement of index [n] (from 0); [BatchCommit n] is the commit of
    line 201 in the same turn of the loop.  The progress bar and the
    banners are left out. *)
Inductive call :=
| Connect                          (* line 156 *)
| OpenCursor                       (* line 166 *)
| FkOff                            (* line 170 *)
| FkOffCommit                      (* line 171 *)
| OpenSource                       (* line 176 *)
| Execute (n : nat) (stmt : str)   (* line 187 *)
| BatchCommit (n : nat)            (* line 201 *)
| FinalCommit                      (* line 206 *)
| FkOn                             (* line 213 *)
| FkOnCommit                       (* line 214 *)
| CursorClose                      (* line 217 *)
| ConnClose                        (* line 218 *)
| StreamClose.                     (* line 219 *)

(** What the run prints about statements: the report of line 192 and the
    summary of line 223. *)
Inductive message :=
| ErrorReport (failed_no stmt_no : nat) (shown : str)
| Summary (applied_count failed_count : nat).

(** The outside world of one run: how each call answers ([None]: it
    returns), the lines the opened source holds, and whether reading past
    them raises. *)
Record world := mkWorld {
  respond : call -> option exn;
  source_lines : list str;
  read_failure : option exn
}.

Definition event := (call * option exn)%type.

Record driver_state := mkDriver {
  trace : list event;
  console : list message;
  applied : nat;
  failed : nat;
  batch : nat
}.

Inductive result (A : Type) :=
| Ret (a : A)
| Raise (e : exn).
Arguments Ret {A} a.
Arguments Raise {A} e.

(** State and exception monad of the driver. *)
Definition M (A : Type) := driver_state -> driver_state * result A.

Definition ret {A} (a : A) : M A := fun s => (s, Ret a).

Definition raise {A} (e : exn) : M A := fun s => (s, Raise e).

Definition bind {A B} (m : M A) (k : A -> M B) : M B :=
  fun s =>
    match m s with
    | (s1, Ret a) => k a s1
    | (s1, Raise e) => (s1, Raise e)
    end.

Declare Scope driver_scope.
Delimit Scope driver_scope with driver.
Notation "x <- m ;; k" := (bind m (fun x => k))
  (at level 61, m at next level, right associativity) : driver_scope.
Notation "m ;; k" := (bind m (fun _ => k))
  (at level 61, right associativity) : driver_scope.
Local Open Scope driver_scope.

Definition get : M driver_state := fun s => (s, Ret s).

Definition modify (f : driver_state -> driver_state) : M unit :=
  fun s => (f s, Ret tt).

Definition print (m : message) : M unit :=
  modify (fun s => mkDriver (trace s) (console s ++ [m])
                            (applied s) (failed s) (batch s)).

(** [try: body / except Exception-class: handler]; the handler decides by
    the exception it is given. *)
Definition try_except {A} (body : M A) (handler : exn -> M A) : M A :=
  fun s =>
    match body s with
    | (s1, Ret a) => (s1, Ret a)
    | (s1, Raise e) => handler e s1
    end.

(** [try: body / finally: fin]: [fin] always runs; what it raises replaces
    the outcome of [body]. *)
Definition try_finally {A} (body : M A) (fin : M unit) : M A :=
  fun s =>
    match body s with
    | (s1, r) =>
        match fin s1 with
        | (s2, Ret _) => (s2, r)
        | (s2, Raise e) => (s2, Raise e)
        end
    end.

Section Driver.

Variable w : world.
Variable commit_every : Z.
Variable stop_on_error : bool.

Definition invoke (c : call) : M unit :=
  fun s =>
    let r := respond w c in
    (mkDriver (trace s ++ [(c, r)]) (console s)
              (applied s) (failed s) (batch s),
     match r with None => Ret tt | Some e => Raise e end).

(** Lines 186-196. *)
Definition execute_statement (n : nat) (stmt : str) : M unit :=
  try_except
    (invoke (Execute n stmt);;
     modify (fun s => mkDriver (trace s) (console s)
                               (applied s + 1) (failed s) (batch s + 1)))
    (fun e =>
       match e with
       | MysqlError =>
           modify (fun s => mkDriver (trace s) (console s)
                                     (applied s) (failed s + 1) (batch s));;
           s <- get;;
           print (ErrorReport (failed s) (applied s + failed s)
                              (firstn 1000 stmt));;
           if stop_on_error then raise e else ret tt
       | OtherError => raise e
       end).

(** Lines 200-202. *)
Definition periodic_commit (n : nat) : M unit :=
  s <- get;;
  if (Z.of_nat (batch s) >=? commit_every)%Z then
    invoke (BatchCommit n);;
    modify (fun s => mkDriver (trace s) (console s)
                              (applied s) (failed s) 0)
  else ret tt.

(** Lines 185-202 over the statements the iterator yields. *)
Fixpoint for_statements (n : nat) (stmts : list str) : M unit :=
  match stmts with
  | [] => ret tt
  | stmt :: rest =>
      execute_statement n stmt;;
      periodic_commit n;;
      for_statements (S n) rest
  end.

(** Lines 185-206: the body of the outer [try].  The iterator is the list
    of statements it yields and what its exhaustion raises, if anything. *)
Definition try_body (it : list str * option exn) : M unit :=
  for_statements 0 (fst it);;
  match snd it with
  | Some e => raise e
  | None =>
      s <- get;;
      if 0 <? batch s then invoke FinalCommit else ret tt
  end.

(** Lines 208-219: the [finally] block. *)
Definition cleanup : M unit :=
  try_except (invoke FkOn;; invoke FkOnCommit) (fun _ => ret tt);;
  invoke CursorClose;;
  invoke ConnClose;;
  invoke StreamClose.

(** [stmt_iter]: the generator over the opened stream.  A read that raises
    ends it after the statements of the lines read so far. *)
Definition stmt_iter : list str * option exn :=
  match read_failure w with
  | None => (_sql_statement_stream (source_lines w), None)
  | Some e => (fst (run initial_state (source_lines w)), Some e)
  end.

Definition initial_driver : driver_state := mkDriver [] [] 0 0 0.

Definition migrate_body : M unit :=
  invoke Connect;;
  invoke OpenCursor;;
  invoke FkOff;;
  invoke FkOffCommit;;
  invoke OpenSource;;
  try_finally (try_body stmt_iter) cleanup;;
  s <- get;;
  print (Summary (applied s) (failed s)).

Definition migrate_sql_to_mysql : driver_state * result unit :=
  migrate_body initial_driver.

End Driver.

(** ** Vocabulary of the properties *)

(** A string of whitespace only. *)
Definition blank (s : str) : bool := forallb isspace s.

(** Every buffered line has text other than whitespace. *)
Definition buf_nonblank (st : TokenizerState) : Prop :=
  Forall (fun l => strip l <> []) (buf st).

(** A line of statement text: no block comment opens in it, it is not
    blank, and it is neither a directive nor a line comment. *)
Definition plain_line (l : str) : Prop :=
  find0 l (py "/*") = None
  /\ strip l <> []
  /\ startswith (upper (strip l)) (py "DELIMITER ") = false
  /\ startswith (strip l) (py "--") = false
  /\ startswith (strip l) (py "#") = false.

(** The five-line input of the delimiter switch. *)
Definition p3_dump : str :=
  py "A;" ++ nl ++ py "DELIMITER $$" ++ nl ++ py "B$$" ++ nl
  ++ py "DELIMITER ;" ++ nl ++ py "C;".




(** How a text stream cuts its text into lines: [io.StringIO(text)] ends
    a line at LF only; a file opened with [newline=""] ends it at LF, at CR
    LF and at a CR alone, and keeps the terminator as it is. *)
Inductive newline_mode := NewlineLF | NewlineUniversal.

Definition line_break (m : newline_mode) (c : ascii) : bool :=
  match m with
  | NewlineLF => Ascii.eqb c LF
  | NewlineUniversal => Ascii.eqb c LF || Ascii.eqb c CR
  end.

Fixpoint readlines_universal (text : str) : list str :=
  match text with
  | [] => []
  | c :: t =>
      if Ascii.eqb c LF then [c] :: readlines_universal t
      else if Ascii.eqb c CR then
        match t with
        | d :: t' =>
            if Ascii.eqb d LF then [c; d] :: readlines_universal t'
            else [c] :: readlines_universal t
        | [] => [[c]]
        end
      else match readlines_universal t with
           | [] => [[c]]
           | l :: ls => (c :: l) :: ls
           end
  end.

Definition text_lines (m : newline_mode) (text : str) : list str :=
  match m with
  | NewlineLF => readlines text
  | NewlineUniversal => readlines_universal text
  end.

(** No line break inside. *)
Definition break_free (brk : ascii -> bool) (s : str) : Prop :=
  forallb (fun c => negb (brk c)) s = true.

(** A line made of text without line breaks, then the given terminator. *)
Definition line_with (brk : ascii -> bool) (term : str) (l : str) : Prop :=
  exists body, l = body ++ term /\ break_free brk body.

(** A line as a stream delivers it before its last one: text, then a
    terminator that is not empty. *)
Definition terminated_line (brk : ascii -> bool) (l : str) : Prop :=
  exists term, term <> [] /\ forallb brk term = true /\ line_with brk term l.

Definition ends_with_break (brk : ascii -> bool) (l : str) : Prop :=
  exists t c, l = t ++ [c] /\ brk c = true.

(** What holds of the tokenizer state along a stream: buffered lines have
    text and end with a line break, and the delimiter holds none. *)
Definition stream_invariant (brk : ascii -> bool) (st : TokenizerState)
  : Prop :=
  Forall (fun l => strip l <> [] /\ ends_with_break brk l) (buf st)
  /\ break_free brk (current_delim st).

(** *** The driver *)

Definition is_execute (c : call) : bool :=
  match c with Execute _ _ => true | _ => false end.

Definition is_commit (c : call) : bool :=
  match c with
  | FkOffCommit | BatchCommit _ | FinalCommit | FkOnCommit => true
  | _ => false
  end.

(** [cur.execute] returns on the statement of index [n]. *)
Definition succeeded (w : world) (n : nat) (stmt : str) : bool :=
  match respond w (Execute n stmt) with None => true | Some _ => false end.

(** How many of the statements [stmts], the first of index [n], the
    destination accepts, and how many it refuses. *)
Fixpoint successes (w : world) (n : nat) (stmts : list str) : nat :=
  match stmts with
  | [] => 0
  | s :: rest => (if succeeded w n s then 1 else 0) + successes w (S n) rest
  end.

Fixpoint failures (w : world) (n : nat) (stmts : list str) : nat :=
  match stmts with
  | [] => 0
  | s :: rest => (if succeeded w n s then 0 else 1) + failures w (S n) rest
  end.

(** Nothing fails but statements, and these with [mysql.Error] only. *)
Definition only_statements_fail (w : world) : Prop :=
  (forall c, is_execute c = false -> respond w c = None)
  /\ (forall n stmt, respond w (Execute n stmt) <> Some OtherError)
  /\ read_failure w = None.

(** The statements the run attempted, in order. *)
Definition attempted (tr : list event) : list str :=
  flat_map (fun ev => match fst ev with Execute _ s => [s] | _ => [] end) tr.

(** The statements that were applied, in order. *)
Definition executed_ok (tr : list event) : list str :=
  flat_map (fun ev => match ev with (Execute _ s, None) => [s] | _ => [] end) tr.

(** The calls expected of the loop under [commit_every = m], given that
    [done] statements succeeded before the statement of index [n]: each
    statement is executed, and a commit follows it exactly when it
    succeeded and the count of successes so far is a multiple of [m]. *)
Fixpoint commit_schedule (w : world) (m done n : nat) (stmts : list str)
  : list event :=
  match stmts with
  | [] => []
  | s :: rest =>
      let done' := done + (if succeeded w n s then 1 else 0) in
      (Execute n s, respond w (Execute n s))
      :: (if succeeded w n s && (done' mod m =? 0)
          then [(BatchCommit n, None)] else [])
      ++ commit_schedule w m done' (S n) rest
  end.

Definition prologue_events : list event :=
  [(Connect, None); (OpenCursor, None); (FkOff, None); (FkOffCommit, None);
   (OpenSource, None)].

Definition cleanup_events : list event :=
  [(FkOn, None); (FkOnCommit, None); (CursorClose, None); (ConnClose, None);
   (StreamClose, None)].

(** The state in which the run enters the [try] of line 184 when every
    call before it returned. *)
Definition after_prologue : driver_state := mkDriver prologue_events [] 0 0 0.



(** The statement of index [n] ends the run: it raises something the loop
    does not swallow. *)
Definition aborts (w : world) (stop_on_error : bool) (n : nat) (stmt : str)
  : bool :=
  match respond w (Execute n stmt) with
  | None => false
  | Some MysqlError => stop_on_error
  | Some OtherError => true
  end.

Definition is_batch_commit (ev : event) : bool :=
  match fst ev with BatchCommit _ => true | _ => false end.

(** A source of three statements of which the destination refuses the
    second. *)
Definition one_refused : world :=
  mkWorld
    (fun c => match c with Execute 1 _ => Some MysqlError | _ => None end)
    (readlines (py "INSERT 1;" ++ nl ++ py "BAD;" ++ nl ++ py "INSERT 3;" ++ nl))
    None.

(** A source that cannot be opened. *)
Definition source_unreachable : world :=
  mkWorld
    (fun c => match c with OpenSource => Some OtherError | _ => None end)
    [] None.



(** The block-comment spans of a line as the words of the specification
    have them, scanned once from left to right: a span opens at a marker
    [/*] and closes with the next marker [*/] that begins after the opening
    one.  [span_mask] tells, for each character, whether it lies in a span
    (markers included); [skip] counts the characters of a marker still to
    pass. *)
Fixpoint span_mask (inside : bool) (skip : nat) (line : str) : list bool :=
  match line with
  | [] => []
  | _ :: t =>
      match skip with
      | S k => true :: span_mask inside k t
      | 0 =>
          if inside then
            if startswith line (py "*/") then true :: span_mask false 1 t
            else true :: span_mask true 0 t
          else
            if startswith line (py "/*") then true :: span_mask true 1 t
            else false :: span_mask false 0 t
      end
  end.

(** The text of a line that lies outside every span. *)
Definition outside_spans (line : str) : str :=
  flat_map (fun cm : ascii * bool => if snd cm then [] else [fst cm])
           (combine line (span_mask false 0 line)).

(** A line with two spans, the second of which begins with [/*/]. *)
Definition seam_line : str := py "//**/*/*/ secret */ x;".

(** *** Further vocabulary *)

(** A line the loop passes over outside a block comment: no block comment
    opens in it, and it is blank or a line comment. *)
Definition skippable_line (l : str) : Prop :=
  find0 l (py "/*") = None
  /\ (strip l = []
      \/ (startswith (upper (strip l)) (py "DELIMITER ") = false
          /\ startswith (strip l) (py "--") || startswith (strip l) (py "#")
             = true)).

(** Every CR of the text is followed by LF. *)
Fixpoint no_lone_cr (text : str) : bool :=
  match text with
  | [] => true
  | c :: t =>
      if Ascii.eqb c CR then
        match t with
        | d :: _ => Ascii.eqb d LF && no_lone_cr t
        | [] => false
        end
      else no_lone_cr t
  end.

(** *** The source loader *)

(** [str.lower] on ASCII letters; as for [upper], the code points 128..255
    have no lower case form made of ASCII characters. *)
Definition lower_char (c : ascii) : ascii :=
  let n := nat_of_ascii c in
  if (65 <=? n) && (n <=? 90) then ascii_of_nat (n + 32) else c.

Definition lower (s : str) : str := map lower_char s.

(** What reading a resource gives: nothing (the call raises), or its text
    and what reading past the text raises, if anything. *)
Inductive fetched :=
| FetchError
| Fetched (text : str) (failure : option exn).

(** A response of [requests.get] that passed [raise_for_status]: its
    [r.text], and [r.content] gunzipped and decoded. *)
Record response := mkResponse {
  r_text : str;
  r_gunzipped : fetched
}.

(** What [_open_sql_source] finds outside the program. *)
Record outside := mkOutside {
  http_get : str -> option response;  (* lines 26-27; [None]: they raise *)
  isfile : str -> bool;               (* [os.path.isfile], line 36 *)
  open_gzip : str -> fetched;         (* [gzip.open], lines 39-41 *)
  open_plain : str -> fetched         (* [open], line 42 *)
}.

(** The stream the loader returns: how it cuts its text into lines, its
    text, and what reading past the text raises. *)
Record text_stream := mkStream {
  stream_mode : newline_mode;
  stream_text : str;
  stream_failure : option exn
}.

Definition universal_stream (f : fetched) : option text_stream :=
  match f with
  | FetchError => None
  | Fetched text failure => Some (mkStream NewlineUniversal text failure)
  end.

(** Lines 17-46; [None]: the loader raises. *)
Definition _open_sql_source (o : outside) (source : str)
  : option text_stream :=
  if startswith (lower source) (py "http://")
     || startswith (lower source) (py "https://")
  then
    match http_get o source with
    | None => None
    | Some r =>
        if endswith source (py ".gz") then universal_stream (r_gunzipped r)
        else Some (mkStream NewlineLF (r_text r) None)
    end
  else if isfile o source then
    if endswith source (py ".gz") then universal_stream (open_gzip o source)
    else universal_stream (open_plain o source)
  else Some (mkStream NewlineLF source None).

(** The lines a stream delivers. *)
Definition stream_lines (st : text_stream) : list str :=
  text_lines (stream_mode st) (stream_text st).

(** The world of a run on [source]: the loader decides how line 176
    answers and what the stream holds; [answers] gives the other calls. *)
Definition world_for (o : outside) (answers : call -> option exn)
                     (source : str) : world :=
  match _open_sql_source o source with
  | Some st =>
      mkWorld (fun c => match c with OpenSource => None | _ => answers c end)
              (stream_lines st) (stream_failure st)
  | None =>
      mkWorld (fun c => match c with
                        | OpenSource => Some OtherError
                        | _ => answers c
                        end)
              [] None
  end.

(** *** Further vocabulary of the driver *)

(** The statements the destination refused: [cur.execute] raised
    [mysql.Error]. *)
Definition refused (tr : list event) : nat :=
  length (filter (fun ev : event =>
                    match ev with
                    | (Execute _ _, Some MysqlError) => true
                    | _ => false
                    end) tr).

Definition is_report (m : message) : bool :=
  match m with ErrorReport _ _ _ => true | Summary _ _ => false end.

(** The error reports printed. *)
Definition reports (c : list message) : nat := length (filter is_report c).

(** The counters of the run agree with its trace and its console. *)
Definition counters_agree (s : driver_state) : Prop :=
  applied s = length (executed_ok (trace s))
  /\ failed s = refused (trace s)
  /\ failed s = reports (console s).

(** No summary has been printed. *)
Definition no_summary (s : driver_state) : Prop :=
  forallb is_report (console s) = true.

(** The five calls before the [try] return. *)
Definition prologue_returns (w : world) : bool :=
  match respond w Connect, respond w OpenCursor, respond w FkOff,
        respond w FkOffCommit, respond w OpenSource with
  | None, None, None, None, None => true
  | _, _, _, _, _ => false
  end.

(** The calls of the loop when [commit_every <= 0]: a commit after every
    statement. *)
Fixpoint every_turn_schedule (w : world) (n : nat) (stmts : list str)
  : list event :=
  match stmts with
  | [] => []
  | s :: rest =>
      (Execute n s, respond w (Execute n s)) :: (BatchCommit n, None)
      :: every_turn_schedule w (S n) rest
  end.

(** The source of [one_refused] when the cursor cannot be closed. *)
Definition cursor_stuck : world :=
  mkWorld
    (fun c => match c with CursorClose => Some MysqlError | _ => None end)
    (readlines (py "INSERT 1;" ++ nl ++ py "INSERT 2;" ++ nl))
    None.

(** The checks cannot be re-enabled, and the second statement is
    refused. *)
Definition checks_stuck : world :=
  mkWorld
    (fun c => match c with
              | FkOn => Some MysqlError
              | Execute 1 _ => Some MysqlError
              | _ => None
              end)
    (readlines (py "INSERT 1;" ++ nl ++ py "BAD;" ++ nl ++ py "INSERT 3;" ++ nl))
    None.

(** A call of the loop of lines 185-202. *)
Definition is_loop_event (ev : event) : bool :=
  match fst ev with Execute _ _ | BatchCommit _ => true | _ => false end.

(** The periodic commit after the second of two statements raises. *)
Definition commit_refused : world :=
  mkWorld
    (fun c => match c with BatchCommit 1 => Some MysqlError | _ => None end)
    (readlines (py "INSERT 1;" ++ nl ++ py "INSERT 2;" ++ nl ++ py "INSERT 3;" ++ nl))
    None.

(** A call of the [finally] block. *)
Definition is_cleanup_event (ev : event) : bool :=
  match fst ev with
  | FkOn | FkOnCommit | CursorClose | ConnClose | StreamClose => true
  | _ => false
  end.

(** The test of line 24: the source begins with [http://] or [https://],
    in any letter case. *)
Definition is_url (source : str) : bool :=
  startswith (lower source) (py "http://")
  || startswith (lower source) (py "https://").

(** An outside with no file and no network. *)
Definition nothing_outside : outside :=
  mkOutside (fun _ => None) (fun _ => false)
            (fun _ => FetchError) (fun _ => FetchError).

(** The second of three statements raises an exception that is not a
    connector error. *)
Definition execute_crashes : world :=
  mkWorld
    (fun c => match c with Execute 1 _ => Some OtherError | _ => None end)
    (readlines (py "INSERT 1;" ++ nl ++ py "INSERT 2;" ++ nl ++ py "INSERT 3;" ++ nl))
    None.

(** *** Dumps of statements *)




























(** * Properties *)

(** ** Strings *)

Lemma lstrip_blank s : blank s = true -> lstrip s = [].
Proof.
  induction s as [|c t IH]; simpl; auto.
  intros H. apply andb_true_iff in H as [Hc Ht]. rewrite Hc. auto.
Qed.

Lemma lstrip_split s :
  exists ws, s = ws ++ lstrip s /\ blank ws = true.
Proof.
  induction s as [|c t [ws [E B]]]; simpl.
  - exists []. auto.
  - destruct (isspace c) eqn:Hc.
    + exists (c :: ws). simpl. rewrite Hc, B. split; [congruence | auto].
    + exists []. auto.
Qed.

Lemma lstrip_head s c t : lstrip s = c :: t -> isspace c = false.
Proof.
  induction s as [|a u IH]; simpl; [discriminate|].
  destruct (isspace a) eqn:Ha; auto.
  intros E. inversion E; subst. exact Ha.
Qed.

Lemma lstrip_nil_blank s : lstrip s = [] -> blank s = true.
Proof.
  induction s as [|c t IH]; simpl; auto.
  destruct (isspace c); [auto | discriminate].
Qed.

Lemma lstrip_nonspace c t : isspace c = false -> lstrip (c :: t) = c :: t.
Proof. intros H. simpl. rewrite H. reflexivity. Qed.

Lemma lstrip_app_blank ws s : blank ws = true -> lstrip (ws ++ s) = lstrip s.
Proof.
  induction ws as [|c t IH]; simpl; auto.
  intros H. apply andb_true_iff in H as [Hc Ht]. rewrite Hc. auto.
Qed.

Lemma lstrip_idem s : lstrip (lstrip s) = lstrip s.
Proof.
  destruct (lstrip s) as [|c t] eqn:E; auto.
  apply lstrip_nonspace. eapply lstrip_head; eauto.
Qed.

Lemma blank_app a b : blank (a ++ b) = blank a && blank b.
Proof. apply forallb_app. Qed.

Lemma blank_rev s : blank (rev s) = blank s.
Proof.
  induction s as [|c t IH]; simpl; auto.
  rewrite blank_app, IH. simpl. rewrite andb_true_r. apply andb_comm.
Qed.

Lemma rstrip_split s :
  exists ws, s = rstrip s ++ ws /\ blank ws = true.
Proof.
  unfold rstrip. destruct (lstrip_split (rev s)) as [ws [E B]].
  exists (rev ws). split.
  - rewrite <- rev_app_distr, <- E, rev_involutive. reflexivity.
  - rewrite blank_rev. exact B.
Qed.

Lemma rstrip_blank s : blank s = true -> rstrip s = [].
Proof.
  intros H. unfold rstrip. rewrite lstrip_blank; auto.
  rewrite blank_rev. exact H.
Qed.

Lemma rstrip_nil_blank s : rstrip s = [] -> blank s = true.
Proof.
  unfold rstrip. intros H.
  assert (E : lstrip (rev s) = []).
  { rewrite <- (rev_involutive (lstrip (rev s))), H. reflexivity. }
  apply lstrip_nil_blank in E. rewrite blank_rev in E. exact E.
Qed.

Lemma rstrip_app_blank s ws : blank ws = true -> rstrip (s ++ ws) = rstrip s.
Proof.
  intros H. unfold rstrip. rewrite rev_app_distr.
  rewrite lstrip_app_blank; auto. rewrite blank_rev. exact H.
Qed.

Lemma rstrip_snoc_nonspace s c : isspace c = false -> rstrip (s ++ [c]) = s ++ [c].
Proof.
  intros H. unfold rstrip. rewrite rev_app_distr. simpl. rewrite H.
  simpl. rewrite rev_involutive. reflexivity.
Qed.

Lemma rstrip_last s t c : rstrip s = t ++ [c] -> isspace c = false.
Proof.
  unfold rstrip. intros H.
  assert (E : lstrip (rev s) = c :: rev t).
  { rewrite <- (rev_involutive (lstrip (rev s))), H, rev_app_distr.
    reflexivity. }
  eapply lstrip_head; eauto.
Qed.

Lemma rstrip_idem s : rstrip (rstrip s) = rstrip s.
Proof.
  unfold rstrip. rewrite rev_involutive, lstrip_idem. reflexivity.
Qed.

Lemma strip_nil_iff s : strip s = [] <-> blank s = true.
Proof.
  unfold strip. split; intros H.
  - apply rstrip_nil_blank in H.
    destruct (lstrip_split s) as [ws [E B]].
    rewrite E, blank_app, B, H. reflexivity.
  - rewrite lstrip_blank; auto.
Qed.

Lemma truthy_false_iff {A} (l : list A) : truthy l = false <-> l = [].
Proof. destruct l; simpl; split; congruence. Qed.

Lemma truthy_true_iff {A} (l : list A) : truthy l = true <-> l <> [].
Proof. destruct l; simpl; split; congruence. Qed.

Lemma strip_split s :
  exists w1 w2, s = w1 ++ strip s ++ w2 /\ blank w1 = true /\ blank w2 = true.
Proof.
  destruct (lstrip_split s) as [w1 [E1 B1]].
  destruct (rstrip_split (lstrip s)) as [w2 [E2 B2]].
  exists w1, w2. unfold strip. rewrite <- E2. auto.
Qed.

Lemma rstrip_fixed s : (forall t c, s = t ++ [c] -> isspace c = false) -> rstrip s = s.
Proof.
  intros H. destruct (rev s) as [|c r] eqn:E.
  - apply (f_equal (@rev ascii)) in E. rewrite rev_involutive in E.
    subst. reflexivity.
  - assert (Es : s = rev r ++ [c]).
    { rewrite <- (rev_involutive s), E. reflexivity. }
    rewrite Es. apply rstrip_snoc_nonspace. eapply H; eauto.
Qed.

Lemma rstrip_cons_nonblank c s : isspace c = false -> exists t, rstrip (c :: s) = c :: t.
Proof.
  intros Hc. destruct (rstrip_split (c :: s)) as [ws [E B]].
  destruct (rstrip (c :: s)) as [|a t] eqn:R.
  - simpl in E. rewrite <- E in B. simpl in B. rewrite Hc in B. discriminate.
  - simpl in E. inversion E; subst. eauto.
Qed.

Lemma strip_head s c t : strip s = c :: t -> isspace c = false.
Proof.
  unfold strip. intros H.
  destruct (lstrip s) as [|a u] eqn:E; [discriminate|].
  pose proof (lstrip_head _ _ _ E) as Ha.
  destruct (rstrip_cons_nonblank a u Ha) as [v Hv].
  rewrite Hv in H. inversion H; subst. exact Ha.
Qed.

Lemma strip_last s t c : strip s = t ++ [c] -> isspace c = false.
Proof. unfold strip. apply rstrip_last. Qed.

Lemma lstrip_fixed s : (forall c t, s = c :: t -> isspace c = false) -> lstrip s = s.
Proof.
  destruct s as [|c t]; auto. intros H. apply lstrip_nonspace. eapply H; eauto.
Qed.

Lemma strip_idem s : strip (strip s) = strip s.
Proof.
  unfold strip at 1.
  rewrite lstrip_fixed by (intros c t E; eapply strip_head; eauto).
  unfold strip. apply rstrip_idem.
Qed.

Lemma strip_app_blank_r s ws : blank ws = true -> strip (s ++ ws) = strip s.
Proof.
  intros B. unfold strip.
  destruct (lstrip_split s) as [w1 [E1 B1]].
  destruct (lstrip s) as [|c t] eqn:L.
  - rewrite app_nil_r in E1. subst w1.
    rewrite (lstrip_blank (s ++ ws)); [reflexivity|].
    rewrite blank_app, B1, B. reflexivity.
  - rewrite E1 at 1. rewrite <- app_assoc, lstrip_app_blank by exact B1.
    simpl. rewrite (lstrip_head _ _ _ L).
    change (c :: t ++ ws) with ((c :: t) ++ ws).
    apply rstrip_app_blank. exact B.
Qed.

Lemma strip_app_blank_l ws s : blank ws = true -> strip (ws ++ s) = strip s.
Proof. intros B. unfold strip. rewrite lstrip_app_blank; auto. Qed.

Lemma strip_fixed s :
  (forall c t, s = c :: t -> isspace c = false) ->
  (forall t c, s = t ++ [c] -> isspace c = false) ->
  strip s = s.
Proof.
  intros H1 H2. unfold strip. rewrite lstrip_fixed; auto. apply rstrip_fixed; auto.
Qed.

Lemma strip_of_strip s : forall x, x = strip s -> strip x = x.
Proof. intros x ->. apply strip_idem. Qed.

Lemma rstrip_strip s : rstrip (strip s) = strip s.
Proof. unfold strip. apply rstrip_idem. Qed.

Lemma blank_strip_app a b : strip a <> [] -> strip (a ++ b) <> [].
Proof.
  intros H C. apply strip_nil_iff in C. rewrite blank_app in C.
  apply andb_true_iff in C as [Ca _]. apply H. apply strip_nil_iff. exact Ca.
Qed.

Lemma blank_strip_app_r a b : strip b <> [] -> strip (a ++ b) <> [].
Proof.
  intros H C. apply strip_nil_iff in C. rewrite blank_app in C.
  apply andb_true_iff in C as [_ Cb]. apply H. apply strip_nil_iff. exact Cb.
Qed.

Lemma startswith_iff s p : startswith s p = true <-> exists t, s = p ++ t.
Proof.
  revert s; induction p as [|a p IH]; intros s; simpl.
  - destruct s; split; eauto.
  - destruct s as [|b s]; split.
    + discriminate.
    + intros [t E]. discriminate.
    + intros H. apply andb_true_iff in H as [Hab Hs].
      apply Ascii.eqb_eq in Hab. subst b.
      apply IH in Hs as [t ->]. eauto.
    + intros [t E]. inversion E; subst. apply andb_true_iff. split.
      * apply Ascii.eqb_refl.
      * apply IH. eauto.
Qed.

Lemma endswith_iff s p : endswith s p = true <-> exists t, s = t ++ p.
Proof.
  unfold endswith. rewrite startswith_iff. split; intros [t E].
  - exists (rev t). apply (f_equal (@rev ascii)) in E.
    rewrite rev_involutive, rev_app_distr, rev_involutive in E. exact E.
  - exists (rev t). rewrite E, rev_app_distr. reflexivity.
Qed.

Lemma find0_eq s sub :
  find0 s sub =
  if startswith s sub then Some 0
  else match s with [] => None | _ :: t => option_map S (find0 t sub) end.
Proof. destruct s; reflexivity. Qed.

Lemma find0_some s sub i :
  find0 s sub = Some i ->
  exists a b, s = a ++ sub ++ b /\ length a = i.
Proof.
  revert i; induction s as [|c t IH]; intros i; rewrite find0_eq;
    destruct (startswith _ sub) eqn:E.
  - intros H; inversion H; subst. apply startswith_iff in E as [b E].
    exists [], b. auto.
  - discriminate.
  - intros H; inversion H; subst. apply startswith_iff in E as [b E].
    exists [], b. auto.
  - destruct (find0 t sub) as [j|] eqn:F; simpl; [|discriminate].
    intros H; inversion H; subst.
    destruct (IH j eq_refl) as [a [b [Es La]]].
    exists (c :: a), b. simpl. rewrite Es, La. auto.
Qed.

Lemma find0_none s sub : find0 s sub = None -> forall a b, s <> a ++ sub ++ b.
Proof.
  induction s as [|c t IH]; rewrite find0_eq;
    destruct (startswith _ sub) eqn:E; try discriminate.
  - intros _ a b H. destruct a; simpl in H.
    + assert (X : startswith [] sub = true) by (apply startswith_iff; eauto).
      congruence.
    + discriminate.
  - destruct (find0 t sub) eqn:F; simpl; [discriminate|].
    intros _ a b H. destruct a as [|x a]; simpl in H.
    + assert (X : startswith (c :: t) sub = true) by (apply startswith_iff; eauto).
      congruence.
    + inversion H; subst. eapply IH; eauto.
Qed.

Lemma find_some s sub start i :
  find s sub start = Some i ->
  exists a b, s = a ++ sub ++ b /\ length a = i /\ start <= i.
Proof.
  unfold find. destruct (start <=? length s) eqn:L; [|discriminate].
  apply Nat.leb_le in L.
  destruct (find0 (skipn start s) sub) as [j|] eqn:F; simpl; [|discriminate].
  intros H; inversion H; subst.
  destruct (find0_some _ _ _ F) as [a [b [E La]]].
  exists (firstn start s ++ a), b. repeat split.
  - rewrite <- app_assoc, <- E. symmetry. apply firstn_skipn.
  - rewrite length_app, length_firstn. lia.
  - lia.
Qed.

(** ** The tokenizer *)

Lemma strip_inline_fuel_S fuel line :
  strip_inline_fuel (S fuel) line =
  match find line (py "/*") 0 with
  | None => (line, false)
  | Some start =>
      match find line (py "*/") (start + 2) with
      | None => (firstn start line, true)
      | Some e => strip_inline_fuel fuel (firstn start line ++ skipn (e + 2) line)
      end
  end.
Proof. reflexivity. Qed.

Lemma find_zero s sub : find s sub 0 = find0 s sub.
Proof. unfold find. simpl. destruct (find0 s sub); reflexivity. Qed.

Lemma span_removed_shorter l start e :
  find l (py "*/") (start + 2) = Some e ->
  length (firstn start l ++ skipn (e + 2) l) + 4 <= length l.
Proof.
  intros F2. destruct (find_some _ _ _ _ F2) as [a [b [E [La Le]]]].
  rewrite length_app, length_firstn, length_skipn.
  assert (L : length l = e + 2 + length b).
  { rewrite E, !length_app. simpl. lia. }
  lia.
Qed.

(** The [while "/*" in line] loop of lines 75-84 ends within the turns the
    model gives it: more fuel never changes its result. *)
Lemma strip_inline_fuel_enough fuel line :
  length line < fuel ->
  strip_inline_fuel fuel line = strip_inline line.
Proof.
  unfold strip_inline.
  assert (G : forall f1 l f2, length l < f1 -> length l < f2 ->
              strip_inline_fuel f1 l = strip_inline_fuel f2 l).
  { induction f1 as [|f1 IH]; intros l f2 H1 H2; [lia|].
    destruct f2 as [|f2]; [lia|]. rewrite !strip_inline_fuel_S.
    destruct (find l (py "/*") 0) as [start|] eqn:F1; auto.
    destruct (find l (py "*/") (start + 2)) as [e|] eqn:F2; auto.
    pose proof (span_removed_shorter _ _ _ F2) as Hlen.
    apply IH; lia. }
  intros H. apply G; lia.
Qed.

(** When the loop ends without opening a block comment, its condition is
    false: no ["/*"] is left in the line. *)
Lemma strip_inline_closed line l :
  strip_inline line = (l, false) -> find0 l (py "/*") = None.
Proof.
  unfold strip_inline.
  assert (G : forall f x, length x < f ->
              strip_inline_fuel f x = (l, false) -> find0 l (py "/*") = None).
  { induction f as [|f IH]; intros x Hx; [lia|]. rewrite strip_inline_fuel_S.
    destruct (find x (py "/*") 0) as [start|] eqn:F1.
    - destruct (find x (py "*/") (start + 2)) as [e|] eqn:F2; [|discriminate].
      pose proof (span_removed_shorter _ _ _ F2) as Hlen.
      apply IH. lia.
    - intros H; inversion H; subst.
      rewrite find_zero in F1. exact F1. }
  apply G. lia.
Qed.

Lemma strip_inline_plain line :
  find0 line (py "/*") = None -> strip_inline line = (line, false).
Proof.
  intros H. unfold strip_inline. rewrite strip_inline_fuel_S, find_zero, H.
  reflexivity.
Qed.

Lemma comment_pass_some inside raw line inside' :
  comment_pass inside raw = (Some line, inside') -> inside' = false.
Proof.
  unfold comment_pass.
  destruct (block_comment_continuation inside raw); [|discriminate].
  destruct (strip_inline s) as [l [|]]; intros H; inversion H; reflexivity.
Qed.

Lemma comment_pass_plain raw :
  find0 raw (py "/*") = None -> comment_pass false raw = (Some raw, false).
Proof.
  intros H. unfold comment_pass. simpl. rewrite strip_inline_plain; auto.
Qed.

Lemma run_app st a b :
  run st (a ++ b) =
  (fst (run st a) ++ fst (run (snd (run st a)) b),
   snd (run (snd (run st a)) b)).
Proof.
  revert st; induction a as [|l a IH]; intros st; simpl.
  - destruct (run st b); reflexivity.
  - destruct (step st l) as [o st1]. rewrite IH.
    destruct (run st1 a) as [o1 s1]. simpl.
    destruct (run s1 b) as [o2 s2]. simpl.
    rewrite app_assoc. reflexivity.
Qed.


Lemma stream_from_app st a b :
  stream_from st (a ++ b) = fst (run st a) ++ stream_from (snd (run st a)) b.
Proof.
  unfold stream_from. rewrite run_app.
  destruct (run (snd (run st a)) b) as [o2 s2]. simpl.
  rewrite app_assoc. reflexivity.
Qed.

Lemma stream_from_cons st l rest :
  stream_from st (l :: rest) =
  opt_list (fst (step st l)) ++ stream_from (snd (step st l)) rest.
Proof.
  unfold stream_from. simpl. destruct (step st l) as [o s1]. simpl.
  destruct (run s1 rest) as [o2 s2]. rewrite app_assoc. reflexivity.
Qed.

(** What [step] does on a line that the comment handling lets through as a
    directive. *)
Lemma step_directive st raw line inside :
  comment_pass (in_block_comment st) raw = (Some line, inside) ->
  startswith (upper (strip line)) (py "DELIMITER ") = true ->
  step st raw =
  (flush_partial (buf st),
   mkState (strip (skipn (length delim_token) (strip line))) [] inside).
Proof.
  intros Hc Hd. unfold step. rewrite Hc.
  destruct (strip line) as [|c t] eqn:E.
  - simpl in Hd. discriminate.
  - simpl negb. cbv iota. rewrite Hd. reflexivity.
Qed.

Lemma step_buf_nonblank st raw :
  buf_nonblank st -> buf_nonblank (snd (step st raw)).
Proof.
  unfold buf_nonblank, step. intros H.
  destruct (comment_pass (in_block_comment st) raw) as [[line|] inside];
    [|exact H].
  destruct (strip line) as [|c t] eqn:E; [exact H|].
  simpl negb. cbv iota.
  destruct (startswith (upper (c :: t)) (py "DELIMITER ")); [constructor|].
  destruct (startswith (c :: t) (py "--") || startswith (c :: t) (py "#"));
    [exact H|].
  destruct (truthy (current_delim st) && _); simpl; [constructor|].
  apply Forall_app. split; auto. constructor; auto. congruence.
Qed.

Lemma run_buf_nonblank lines : forall st,
  buf_nonblank st -> buf_nonblank (snd (run st lines)).
Proof.
  induction lines as [|l rest IH]; intros st H; simpl; auto.
  pose proof (step_buf_nonblank st l H) as H1.
  destruct (step st l) as [o st1]. simpl in H1.
  specialize (IH st1 H1). destruct (run st1 rest). exact IH.
Qed.

Lemma join_nonblank (b : list str) :
  b <> [] -> Forall (fun l => strip l <> []) b -> strip (join b) <> [].
Proof.
  destruct b as [|l b]; [congruence|]. intros _ H. inversion H; subst.
  unfold join. simpl. apply blank_strip_app. assumption.
Qed.

Lemma flush_partial_nonblank (b : list str) :
  b <> [] -> Forall (fun l => strip l <> []) b ->
  flush_partial b = Some (strip (join b)).
Proof.
  intros Hne H. unfold flush_partial.
  apply truthy_true_iff in Hne. rewrite Hne.
  pose proof (join_nonblank b (proj1 (truthy_true_iff b) Hne) H) as J.
  apply truthy_true_iff in J. rewrite J. reflexivity.
Qed.

(** What [step] does on a line of statement text outside a block comment:
    lines 114-124. *)
Lemma step_plain st l :
  in_block_comment st = false ->
  plain_line l ->
  step st l =
  let test := rstrip (join (buf st ++ [l])) in
  if truthy (current_delim st) && endswith test (current_delim st) then
    (let stmt := strip (slice_to_neg test (length (current_delim st))) in
     if truthy stmt then Some stmt else None,
     mkState (current_delim st) [] false)
  else (None, mkState (current_delim st) (buf st ++ [l]) false).
Proof.
  intros Hi (Hc & Hne & Hd & H1 & H2). unfold step.
  rewrite Hi, (comment_pass_plain l Hc).
  apply truthy_true_iff in Hne. rewrite Hne. simpl negb. cbv iota.
  rewrite Hd, H1, H2. reflexivity.
Qed.

(** C2. On the input [A;\nDELIMITER $$\nB$$\nDELIMITER ;\nC;] the tokenizer
    yields exactly [A], [B], [C].  In general a directive line is never
    yielded nor buffered: the output of a stream with a directive line is
    what the lines before it yielded, the flush of what they left in the
    buffer, and what the lines after it yield from an empty buffer under
    the new delimiter. *)
Theorem delimiter_switch :
  _sql_statement_stream (readlines p3_dump) = [py "A"; py "B"; py "C"]
  /\ (forall st pre raw post line inside,
        comment_pass (in_block_comment (snd (run st pre))) raw
          = (Some line, inside) ->
        startswith (upper (strip line)) (py "DELIMITER ") = true ->
        stream_from st (pre ++ raw :: post) =
          fst (run st pre)
          ++ opt_list (flush_partial (buf (snd (run st pre))))
          ++ stream_from
               (mkState (strip (skipn (length delim_token) (strip line)))
                        [] false)
               post).
Proof.
  split.
  - vm_compute. reflexivity.
  - intros st pre raw post line inside Hc Hd.
    rewrite stream_from_app, stream_from_cons.
    rewrite (step_directive _ _ _ _ Hc Hd). simpl fst. simpl snd.
    rewrite (comment_pass_some _ _ _ _ Hc). reflexivity.
Qed.

Lemma delimiter_switch_witness :
  stream_from initial_state ([py "A"] ++ py "delimiter //" :: [py "B//"])
  = [] ++ opt_list (flush_partial [py "A"])
    ++ stream_from (mkState (py "//") [] false) [py "B//"].
Proof.
  apply (proj2 delimiter_switch initial_state [py "A"] (py "delimiter //")
               [py "B//"] (py "delimiter //") false); reflexivity.
Defined.

(** C7. A directive line read while the buffer holds lines flushes the
    buffer as one Statement, with no delimiter match, and leaves it empty;
    at exhaustion a buffer that is not empty after trimming is yielded as
    the final Statement; so a dump that ends in a line [D] of statement
    text with no delimiter yields [D] (trimmed) last. *)
Theorem flush_rules :
  (forall pre raw line inside,
      comment_pass (in_block_comment (snd (run initial_state pre))) raw
        = (Some line, inside) ->
      startswith (upper (strip line)) (py "DELIMITER ") = true ->
      buf (snd (run initial_state pre)) <> [] ->
      fst (step (snd (run initial_state pre)) raw)
        = Some (strip (join (buf (snd (run initial_state pre)))))
      /\ buf (snd (step (snd (run initial_state pre)) raw)) = [])
  /\ (forall lines,
      strip (join (buf (snd (run initial_state lines)))) <> [] ->
      _sql_statement_stream lines =
        fst (run initial_state lines)
        ++ [strip (join (buf (snd (run initial_state lines))))])
  /\ (forall pre D,
      buf (snd (run initial_state pre)) = [] ->
      in_block_comment (snd (run initial_state pre)) = false ->
      plain_line D ->
      endswith (rstrip D) (current_delim (snd (run initial_state pre))) = false ->
      _sql_statement_stream (pre ++ [D]) =
        fst (run initial_state pre) ++ [strip D])
  /\ _sql_statement_stream [py "D"] = [py "D"].
Proof.
  split; [|split; [|split]].
  - intros pre raw line inside Hc Hd Hb.
    rewrite (step_directive _ _ _ _ Hc Hd). simpl. split; auto.
    apply flush_partial_nonblank; auto.
    apply run_buf_nonblank. constructor.
  - intros lines H. unfold _sql_statement_stream, stream_from.
    destruct (run initial_state lines) as [out st]. simpl in *.
    unfold flush_tail. apply truthy_true_iff in H. rewrite H. reflexivity.
  - intros pre D Hb Hi Hp He.
    unfold _sql_statement_stream. rewrite stream_from_app.
    f_equal. rewrite stream_from_cons.
    rewrite (step_plain _ _ Hi Hp). rewrite Hb. cbv zeta.
    unfold join. simpl concat. rewrite app_nil_r, He, andb_false_r.
    simpl. unfold stream_from. simpl. unfold flush_tail. simpl.
    unfold join. simpl. rewrite app_nil_r.
    destruct Hp as (_ & Hne & _). apply truthy_true_iff in Hne.
    rewrite Hne. reflexivity.
  - vm_compute. reflexivity.
Qed.

Lemma flush_rules_witness :
  (fst (step (snd (run initial_state [py "A"])) (py "DELIMITER $$"))
     = Some (strip (join (buf (snd (run initial_state [py "A"])))))
   /\ buf (snd (step (snd (run initial_state [py "A"])) (py "DELIMITER $$"))) = [])
  /\ _sql_statement_stream [py "A;"; py "D"]
     = fst (run initial_state [py "A;"; py "D"])
       ++ [strip (join (buf (snd (run initial_state [py "A;"; py "D"]))))]
  /\ _sql_statement_stream ([py "A;"] ++ [py " D "])
     = fst (run initial_state [py "A;"]) ++ [strip (py " D ")].
Proof.
  split; [|split].
  - apply (proj1 flush_rules [py "A"] (py "DELIMITER $$") (py "DELIMITER $$") false);
      [reflexivity | reflexivity | vm_compute; discriminate].
  - apply (proj1 (proj2 flush_rules) [py "A;"; py "D"]).
    vm_compute. discriminate.
  - apply (proj1 (proj2 (proj2 flush_rules)) [py "A;"] (py " D "));
      try reflexivity.
    unfold plain_line. repeat split; try reflexivity.
    vm_compute. discriminate.
Defined.

(** ** The buffer along a stream *)

Lemma firstn_exact {A} (a b : list A) : firstn (length a) (a ++ b) = a.
Proof.
  rewrite firstn_app, Nat.sub_diag, firstn_all. simpl. apply app_nil_r.
Qed.

Lemma skipn_exact {A} (a b : list A) : skipn (length a) (a ++ b) = b.
Proof.
  rewrite skipn_app, Nat.sub_diag, skipn_all. reflexivity.
Qed.

Lemma break_free_cons brk c s :
  brk c = false -> break_free brk s -> break_free brk (c :: s).
Proof.
  unfold break_free. intros Hc Hs. cbn [forallb]. rewrite Hc, Hs. reflexivity.
Qed.

Lemma break_free_app brk a b :
  break_free brk (a ++ b) <-> break_free brk a /\ break_free brk b.
Proof. unfold break_free. rewrite forallb_app. apply andb_true_iff. Qed.

Lemma break_free_nil brk : break_free brk [].
Proof. reflexivity. Qed.

Lemma readlines_terminated text :
  Forall (terminated_line (line_break NewlineLF)) (removelast (readlines text))
  /\ (forall l ls, readlines text = l :: ls ->
        exists term, forallb (line_break NewlineLF) term = true
                     /\ line_with (line_break NewlineLF) term l
                     /\ (ls <> [] -> term <> [])).
Proof.
  induction text as [|c t [IH1 IH2]].
  - split; [constructor | discriminate].
  - simpl readlines. destruct (Ascii.eqb c LF) eqn:Ec.
    + assert (T : terminated_line (line_break NewlineLF) [c]).
      { exists [c]. split; [discriminate|]. split.
        - simpl. rewrite Ec. reflexivity.
        - exists []. split; reflexivity. }
      split.
      * destruct (readlines t) as [|l ls] eqn:E; [constructor|].
        change (removelast ([c] :: l :: ls)) with ([c] :: removelast (l :: ls)).
        constructor; assumption.
      * intros l ls H. inversion H; subst. exists [c]. split; [|split].
        -- simpl. rewrite Ec. reflexivity.
        -- exists []. split; reflexivity.
        -- discriminate.
    + destruct (readlines t) as [|l ls] eqn:E.
      * split; [constructor|]. intros l ls H. inversion H; subst.
        exists []. split; [reflexivity|]. split; [|intros X; now elim X].
        exists [c]. split; [rewrite app_nil_r; reflexivity|].
        apply break_free_cons; [exact Ec | apply break_free_nil].
      * destruct (IH2 l ls eq_refl) as [term [Ht [[body [El Hb]] Hne]]].
        assert (L : line_with (line_break NewlineLF) term (c :: l)).
        { exists (c :: body). split; [rewrite El; reflexivity|].
          apply break_free_cons; [exact Ec | exact Hb]. }
        split.
        -- destruct ls as [|l' ls']; [constructor|].
           change (removelast ((c :: l) :: l' :: ls'))
             with ((c :: l) :: removelast (l' :: ls')).
           change (removelast (l :: l' :: ls'))
             with (l :: removelast (l' :: ls')) in IH1.
           inversion IH1; subst. constructor; [|assumption].
           exists term. split; [apply Hne; discriminate|]. split; assumption.
        -- intros l0 ls0 H. inversion H; subst. exists term. auto.
Qed.

Lemma readlines_universal_terminated text :
  Forall (terminated_line (line_break NewlineUniversal))
         (removelast (readlines_universal text))
  /\ (forall l ls, readlines_universal text = l :: ls ->
        exists term, forallb (line_break NewlineUniversal) term = true
                     /\ line_with (line_break NewlineUniversal) term l
                     /\ (ls <> [] -> term <> [])).
Proof.
  assert (T : forall term, term <> [] ->
            forallb (line_break NewlineUniversal) term = true ->
            terminated_line (line_break NewlineUniversal) term).
  { intros term H1 H2. exists term. split; [assumption|]. split; [assumption|].
    exists []. split; reflexivity. }
  assert (G : forall n text, length text <= n ->
    Forall (terminated_line (line_break NewlineUniversal))
           (removelast (readlines_universal text))
    /\ (forall l ls, readlines_universal text = l :: ls ->
        exists term, forallb (line_break NewlineUniversal) term = true
                     /\ line_with (line_break NewlineUniversal) term l
                     /\ (ls <> [] -> term <> []))).
  { induction n as [|n IH]; intros [|c t] Hn;
      try (split; [constructor | discriminate]); simpl in Hn; [lia|].
    assert (Ht : length t <= n) by lia.
    simpl readlines_universal. destruct (Ascii.eqb c LF) eqn:Ec.
    - destruct (IH t Ht) as [IH1 IH2]. split.
      + destruct (readlines_universal t) as [|l ls] eqn:E; [constructor|].
        change (removelast ([c] :: l :: ls)) with ([c] :: removelast (l :: ls)).
        constructor; [|assumption]. apply T; [discriminate|].
        simpl. rewrite Ec. reflexivity.
      + intros l ls H. inversion H; subst. exists [c]. split; [|split].
        * simpl. rewrite Ec. reflexivity.
        * exists []. split; reflexivity.
        * discriminate.
    - destruct (Ascii.eqb c CR) eqn:Er.
      + destruct t as [|d t'].
        * split; [constructor|]. intros l ls H. inversion H; subst.
          exists [c]. split; [|split].
          -- simpl. rewrite Er, orb_true_r. reflexivity.
          -- exists []. split; reflexivity.
          -- discriminate.
        * destruct (Ascii.eqb d LF) eqn:Ed.
          -- assert (Ht' : length t' <= n) by (simpl in Ht; lia).
             destruct (IH t' Ht') as [IH1 IH2].
             assert (B : forallb (line_break NewlineUniversal) [c; d] = true).
             { simpl. rewrite Er, Ed, orb_true_r. reflexivity. }
             split.
             ++ destruct (readlines_universal t') as [|l ls] eqn:E; [constructor|].
                change (removelast ([c; d] :: l :: ls))
                  with ([c; d] :: removelast (l :: ls)).
                constructor; [|assumption]. apply T; [discriminate | exact B].
             ++ intros l ls H. inversion H; subst. exists [c; d].
                split; [exact B|]. split; [|discriminate].
                exists []. split; reflexivity.
          -- destruct (IH (d :: t') Ht) as [IH1 IH2].
             assert (B : forallb (line_break NewlineUniversal) [c] = true).
             { simpl. rewrite Er, orb_true_r. reflexivity. }
             split.
             ++ destruct (readlines_universal (d :: t')) as [|l ls] eqn:E;
                  [constructor|].
                change (removelast ([c] :: l :: ls))
                  with ([c] :: removelast (l :: ls)).
                constructor; [|assumption]. apply T; [discriminate | exact B].
             ++ intros l ls H. inversion H; subst. exists [c].
                split; [exact B|]. split; [|discriminate].
                exists []. split; reflexivity.
      + destruct (IH t Ht) as [IH1 IH2].
        destruct (readlines_universal t) as [|l ls] eqn:E.
        * split; [constructor|]. intros l ls H. inversion H; subst.
          exists []. split; [reflexivity|]. split; [|intros X; now elim X].
          exists [c]. split; [rewrite app_nil_r; reflexivity|].
          apply break_free_cons; [|apply break_free_nil].
          simpl. rewrite Ec, Er. reflexivity.
        * destruct (IH2 l ls eq_refl) as [term [Hterm [[body [El Hb]] Hne]]].
          assert (L : line_with (line_break NewlineUniversal) term (c :: l)).
          { exists (c :: body). split; [rewrite El; reflexivity|].
            apply break_free_cons; [|exact Hb].
            simpl. rewrite Ec, Er. reflexivity. }
          split.
          -- destruct ls as [|l' ls']; [constructor|].
             change (removelast ((c :: l) :: l' :: ls'))
               with ((c :: l) :: removelast (l' :: ls')).
             change (removelast (l :: l' :: ls'))
               with (l :: removelast (l' :: ls')) in IH1.
             inversion IH1; subst. constructor; [|assumption].
             exists term. split; [apply Hne; discriminate|]. split; assumption.
          -- intros l0 ls0 H. inversion H; subst. exists term. auto. }
  apply (G (length text)). lia.
Qed.

Lemma text_lines_terminated m text pre raw post :
  text_lines m text = pre ++ raw :: post ->
  Forall (terminated_line (line_break m)) pre.
Proof.
  intros E.
  assert (H : Forall (terminated_line (line_break m))
                     (removelast (text_lines m text))).
  { destruct m; [apply readlines_terminated | apply readlines_universal_terminated]. }
  rewrite E in H. rewrite removelast_app in H by discriminate.
  apply Forall_app in H. tauto.
Qed.

Lemma line_break_space m c : line_break m c = true -> isspace c = true.
Proof.
  destruct m; simpl; intros H.
  - apply Ascii.eqb_eq in H. subst. reflexivity.
  - apply orb_true_iff in H as [H|H]; apply Ascii.eqb_eq in H; subst;
      reflexivity.
Qed.

Lemma blank_nth s i x : blank s = true -> nth_error s i = Some x -> isspace x = true.
Proof.
  intros B H. apply nth_error_In in H.
  unfold blank in B. rewrite forallb_forall in B. auto.
Qed.

Lemma nonblank_nth s :
  strip s <> [] -> exists i x, nth_error s i = Some x /\ isspace x = false.
Proof.
  intros H.
  assert (B : blank s <> true) by (intros C; apply H, strip_nil_iff, C).
  clear H. induction s as [|c t IH]; [elim B; reflexivity|].
  destruct (isspace c) eqn:Hc.
  - destruct IH as [i [x [Hi Hx]]].
    + intros C. apply B. simpl. rewrite Hc, C. reflexivity.
    + exists (S i), x. auto.
  - exists 0, c. auto.
Qed.

Section StreamLines.

Variable brk : ascii -> bool.
Hypothesis brk_space : forall c, brk c = true -> isspace c = true.

Lemma break_free_nth s i x : break_free brk s -> nth_error s i = Some x -> brk x = false.
Proof.
  intros B H. apply nth_error_In in H.
  unfold break_free in B. rewrite forallb_forall in B.
  apply negb_true_iff. auto.
Qed.

Lemma break_free_strip s : break_free brk s -> break_free brk (strip s).
Proof.
  intros H. destruct (strip_split s) as [w1 [w2 [E _]]].
  rewrite E in H. apply break_free_app in H as [_ H].
  apply break_free_app in H as [H _]. exact H.
Qed.

Lemma break_free_skipn n s : break_free brk s -> break_free brk (skipn n s).
Proof.
  intros H. rewrite <- (firstn_skipn n s) in H.
  apply break_free_app in H. tauto.
Qed.

Lemma breaks_blank term : forallb brk term = true -> blank term = true.
Proof.
  unfold blank. rewrite !forallb_forall. intros H x Hx. auto.
Qed.

(** An occurrence of a marker that ends with a character other than a line
    break lies within the text of the line, before its terminator. *)
Lemma occurrence_in_body body term a sub b :
  forallb brk term = true ->
  body ++ term = a ++ sub ++ b ->
  (exists s' x, sub = s' ++ [x] /\ brk x = false) ->
  exists b', b = b' ++ term /\ body = a ++ sub ++ b'.
Proof.
  intros Ht E [s' [x [Es Hx]]].
  rewrite app_assoc in E. apply app_eq_app in E as [l [[E1 E2]|[E1 E2]]].
  - exists l. rewrite <- app_assoc in E1. auto.
  - destruct l as [|y l].
    + exists []. rewrite app_nil_r in E1. simpl in E2.
      split; [simpl; congruence | rewrite app_nil_r; congruence].
    + exfalso. destruct (exists_last (l := y :: l)) as [l0 [z El]];
        [discriminate|].
      rewrite El in E1, E2. rewrite Es in E1.
      rewrite !app_assoc in E1. apply app_inj_tail in E1 as [_ Exz].
      subst z. rewrite forallb_forall in Ht.
      assert (brk x = true).
      { apply Ht. rewrite E2. apply in_or_app. left. apply in_or_app.
        right. left. reflexivity. }
      congruence.
Qed.

Lemma marker_close : exists s' x, py "*/" = s' ++ [x] /\ brk x = false.
Proof.
  exists [Ascii.ascii_of_nat 42], (Ascii.ascii_of_nat 47). split; [reflexivity|].
  destruct (brk (ascii_of_nat 47)) eqn:E; auto.
  apply brk_space in E. discriminate.
Qed.

Lemma marker_open : exists s' x, py "/*" = s' ++ [x] /\ brk x = false.
Proof.
  exists [Ascii.ascii_of_nat 47], (Ascii.ascii_of_nat 42). split; [reflexivity|].
  destruct (brk (ascii_of_nat 42)) eqn:E; auto.
  apply brk_space in E. discriminate.
Qed.

Lemma skipn_past a (sub : str) b n :
  n = length a + length sub -> skipn n (a ++ sub ++ b) = b.
Proof.
  intros ->. rewrite app_assoc, <- length_app. apply skipn_exact.
Qed.

Lemma continuation_shape term raw line :
  forallb brk term = true ->
  line_with brk term raw ->
  block_comment_continuation true raw = Some line ->
  line_with brk term line.
Proof.
  intros Ht [body [E Hb]]. unfold block_comment_continuation.
  destruct (find raw (py "*/") 0) as [e|] eqn:F; [|discriminate].
  intros H; inversion H; subst line; clear H.
  destruct (find_some _ _ _ _ F) as [a [b [Er [La _]]]].
  rewrite Er, (skipn_past a (py "*/") b) by (simpl; lia).
  rewrite E in Er.
  destruct (occurrence_in_body _ _ _ _ _ Ht Er marker_close) as [b' [Eb Ebody]].
  exists b'. split; [exact Eb|].
  rewrite Ebody in Hb. apply break_free_app in Hb as [_ Hb].
  apply break_free_app in Hb. tauto.
Qed.

Lemma strip_inline_shape term : forallb brk term = true ->
  forall fuel l line,
    line_with brk term l ->
    strip_inline_fuel fuel l = (line, false) ->
    line_with brk term line.
Proof.
  intros Ht. induction fuel as [|fuel IH]; intros l line Hl.
  - simpl. intros H; inversion H; subst. exact Hl.
  - rewrite strip_inline_fuel_S.
    destruct (find l (py "/*") 0) as [start|] eqn:F1.
    + destruct (find l (py "*/") (start + 2)) as [e|] eqn:F2; [|discriminate].
      apply IH.
      destruct Hl as [body [E Hb]].
      destruct (find_some _ _ _ _ F1) as [a1 [b1 [E1 [L1 _]]]].
      destruct (find_some _ _ _ _ F2) as [a2 [b2 [E2 [L2 _]]]].
      assert (X1 : firstn start l = a1).
      { rewrite E1, <- L1. apply firstn_exact. }
      assert (X2 : skipn (e + 2) l = b2).
      { rewrite E2. apply skipn_past. simpl. lia. }
      rewrite X1, X2.
      rewrite E in E1, E2.
      destruct (occurrence_in_body _ _ _ _ _ Ht E1 marker_open) as [b1' [_ Eb1]].
      destruct (occurrence_in_body _ _ _ _ _ Ht E2 marker_close) as [b2' [Eb2 Eb2']].
      exists (a1 ++ b2'). split.
      * rewrite Eb2, app_assoc. reflexivity.
      * apply break_free_app. split.
        -- rewrite Eb1 in Hb. apply break_free_app in Hb. tauto.
        -- rewrite Eb2' in Hb. apply break_free_app in Hb as [_ Hb].
           apply break_free_app in Hb. tauto.
    + intros H; inversion H; subst. exact Hl.
Qed.

Lemma comment_pass_shape term inside raw line inside' :
  forallb brk term = true ->
  line_with brk term raw ->
  comment_pass inside raw = (Some line, inside') ->
  line_with brk term line.
Proof.
  intros Ht Hl. unfold comment_pass.
  destruct (block_comment_continuation inside raw) as [line0|] eqn:C;
    [|discriminate].
  assert (H0 : line_with brk term line0).
  { destruct inside.
    - eapply continuation_shape; eauto.
    - simpl in C. inversion C; subst. exact Hl. }
  destruct (strip_inline line0) as [l o] eqn:S.
  destruct o; [discriminate|]. intros H; inversion H; subst.
  eapply strip_inline_shape; eauto.
Qed.

Lemma line_with_strip term l :
  forallb brk term = true -> line_with brk term l -> break_free brk (strip l).
Proof.
  intros Ht [body [E Hb]]. subst l.
  rewrite strip_app_blank_r by (apply breaks_blank; exact Ht).
  apply break_free_strip. exact Hb.
Qed.

Lemma line_with_ends term l :
  term <> [] -> forallb brk term = true -> line_with brk term l ->
  ends_with_break brk l.
Proof.
  intros Hne Ht [body [E Hb]].
  destruct (exists_last Hne) as [t0 [c Et]]. subst term.
  exists (body ++ t0), c. split.
  - rewrite E, app_assoc. reflexivity.
  - rewrite forallb_app in Ht. apply andb_true_iff in Ht as [_ Ht].
    simpl in Ht. rewrite andb_true_r in Ht. exact Ht.
Qed.

(** The invariant holds along a stream of terminated lines. *)
Lemma step_stream_invariant st raw :
  terminated_line brk raw ->
  stream_invariant brk st ->
  stream_invariant brk (snd (step st raw)).
Proof.
  intros [term [Hne [Ht Hl]]] [Hbuf Hd]. unfold step.
  destruct (comment_pass (in_block_comment st) raw) as [[line|] inside] eqn:C;
    [|split; assumption].
  pose proof (comment_pass_shape _ _ _ _ _ Ht Hl C) as Hline.
  destruct (strip line) as [|c t] eqn:E; [split; assumption|].
  simpl negb. cbv iota.
  destruct (startswith (upper (c :: t)) (py "DELIMITER ")).
  { split; [constructor|]. cbn [snd current_delim].
    apply break_free_strip, break_free_skipn. rewrite <- E.
    eapply line_with_strip; eauto. }
  destruct (startswith (c :: t) (py "--") || startswith (c :: t) (py "#"));
    [split; assumption|].
  destruct (truthy (current_delim st) && _); cbn [snd].
  - split; [constructor | exact Hd].
  - split; [|exact Hd]. cbn [buf]. apply Forall_app. split; [exact Hbuf|].
    constructor; [|constructor]. split.
    + congruence.
    + eapply line_with_ends; eauto.
Qed.

Lemma run_stream_invariant lines : forall st,
  Forall (terminated_line brk) lines ->
  stream_invariant brk st ->
  stream_invariant brk (snd (run st lines)).
Proof.
  induction lines as [|l rest IH]; intros st Hl Hi; simpl; auto.
  inversion Hl; subst.
  pose proof (step_stream_invariant st l H1 Hi) as H1'.
  destruct (step st l) as [o st1]. simpl in H1'.
  specialize (IH st1 H2 H1'). destruct (run st1 rest). exact IH.
Qed.

(** A delimiter match never takes all of a buffer that held lines: the
    delimiter has no line break, so it cannot reach back over the end of a
    buffered line. *)
Lemma match_keeps_text B line d X :
  strip B <> [] ->
  ends_with_break brk B ->
  strip line <> [] ->
  break_free brk d ->
  rstrip (B ++ line) = X ++ d ->
  strip X <> [].
Proof.
  intros HB [B0 [c [EB Hc]]] Hline Hd HX Hblank.
  apply strip_nil_iff in Hblank.
  destruct (rstrip_split (B ++ line)) as [ws [ES Hws]].
  rewrite HX in ES.
  destruct (nonblank_nth B HB) as [i [x [Hi Hx]]].
  destruct (nonblank_nth line Hline) as [j [y [Hj Hy]]].
  assert (HiB : i < length B) by (apply nth_error_Some; congruence).
  assert (HjL : j < length line) by (apply nth_error_Some; congruence).
  assert (LB : length B = S (length B0)).
  { rewrite EB, length_app. simpl. lia. }
  assert (Si : nth_error (B ++ line) i = Some x).
  { rewrite nth_error_app1; assumption. }
  assert (Sj : nth_error (B ++ line) (length B + j) = Some y).
  { rewrite nth_error_app2 by lia.
    replace (length B + j - length B) with j by lia. exact Hj. }
  assert (Sc : nth_error (B ++ line) (length B0) = Some c).
  { rewrite nth_error_app1 by lia. rewrite EB.
    rewrite nth_error_app2 by lia. rewrite Nat.sub_diag. reflexivity. }
  rewrite ES in Si, Sj, Sc.
  assert (I1 : length X <= i).
  { destruct (Nat.le_gt_cases (length X) i) as [L|L]; [exact L|].
    rewrite <- app_assoc, nth_error_app1 in Si by exact L.
    rewrite (blank_nth _ _ _ Hblank Si) in Hx. discriminate. }
  assert (I2 : i <> length B0).
  { intros ->. rewrite Sc in Si. inversion Si; subst.
    rewrite (brk_space _ Hc) in Hx. discriminate. }
  assert (I3 : length B + j < length X + length d).
  { destruct (Nat.le_gt_cases (length X + length d) (length B + j)) as [L|L];
      [|exact L].
    rewrite nth_error_app2 in Sj by (rewrite length_app; lia).
    rewrite (blank_nth _ _ _ Hws Sj) in Hy. discriminate. }
  rewrite <- app_assoc, nth_error_app2 in Sc by lia.
  rewrite nth_error_app1 in Sc by lia.
  rewrite (break_free_nth _ _ _ Hd Sc) in Hc. discriminate.
Qed.

End StreamLines.

Lemma slice_to_neg_suffix X d : d <> [] -> slice_to_neg (X ++ d) (length d) = X.
Proof.
  intros Hd. unfold slice_to_neg.
  destruct (length d) eqn:L; [destruct d; [congruence | discriminate]|].
  rewrite <- L. rewrite length_app.
  replace (length X + length d - length d) with (length X) by lia.
  apply firstn_exact.
Qed.

Lemma join_snoc (b : list str) l : join (b ++ [l]) = join b ++ l.
Proof. unfold join. rewrite concat_app. simpl. rewrite app_nil_r. reflexivity. Qed.

Lemma join_ends_with_break brk (b : list str) :
  b <> [] ->
  Forall (fun l => strip l <> [] /\ ends_with_break brk l) b ->
  ends_with_break brk (join b).
Proof.
  intros Hne H. destruct (exists_last Hne) as [b0 [l E]]. subst b.
  apply Forall_app in H as [_ H]. inversion H as [|? ? [_ [t [c [El Hc]]]] _]; subst.
  exists (join b0 ++ t), c. split; [|exact Hc].
  rewrite join_snoc, app_assoc. reflexivity.
Qed.

Lemma initial_stream_invariant brk :
  (forall c, brk c = true -> isspace c = true) ->
  stream_invariant brk initial_state.
Proof.
  intros Hs. split; [constructor|].
  unfold break_free. simpl. rewrite andb_true_r. apply negb_true_iff.
  destruct (brk _) eqn:E; auto. apply Hs in E. discriminate.
Qed.

(** The buffer after a turn of the loop is empty or extends the buffer
    before it; a turn that yields leaves it empty. *)
Lemma step_buf_shape st raw :
  (fst (step st raw) <> None -> buf (snd (step st raw)) = [])
  /\ (buf (snd (step st raw)) = []
      \/ exists tl, buf (snd (step st raw)) = buf st ++ tl).
Proof.
  unfold step.
  destruct (comment_pass (in_block_comment st) raw) as [[line|] inside].
  2:{ simpl. split; [congruence|]. right. exists []. symmetry. apply app_nil_r. }
  destruct (negb (truthy (strip line))).
  { simpl. split; [congruence|]. right. exists []. symmetry. apply app_nil_r. }
  destruct (startswith (upper (strip line)) (py "DELIMITER ")).
  { simpl. auto. }
  destruct (startswith (strip line) (py "--") || startswith (strip line) (py "#")).
  { simpl. split; [congruence|]. right. exists []. symmetry. apply app_nil_r. }
  destruct (truthy (current_delim st) && _).
  - cbn [fst snd buf]. auto.
  - cbn [fst snd buf]. split; [congruence|]. right. eauto.
Qed.

(** Under the invariant, a turn that empties a buffer that held lines
    yields a Statement. *)
Lemma step_clears_with_emission brk st raw :
  (forall c, brk c = true -> isspace c = true) ->
  stream_invariant brk st ->
  buf st <> [] ->
  buf (snd (step st raw)) = [] ->
  fst (step st raw) <> None.
Proof.
  intros Hs [Hbuf Hd] Hne. unfold step.
  assert (Hnb : Forall (fun l => strip l <> []) (buf st)).
  { eapply Forall_impl; [|exact Hbuf]. simpl. tauto. }
  destruct (comment_pass (in_block_comment st) raw) as [[line|] inside];
    [|simpl; congruence].
  destruct (strip line) as [|c t] eqn:E; [simpl; congruence|].
  simpl negb. cbv iota.
  destruct (startswith (upper (c :: t)) (py "DELIMITER ")).
  { intros _. cbn [fst]. rewrite flush_partial_nonblank by assumption.
    discriminate. }
  destruct (startswith (c :: t) (py "--") || startswith (c :: t) (py "#"));
    [simpl; congruence|].
  destruct (truthy (current_delim st)) eqn:Td.
  2:{ simpl. intros H. destruct (buf st); [congruence | discriminate]. }
  destruct (endswith (rstrip (join (buf st ++ [line]))) (current_delim st)) eqn:En.
  2:{ simpl. intros H. destruct (buf st); [congruence | discriminate]. }
  intros _. cbn [andb fst].
  apply endswith_iff in En as [X EX].
  apply truthy_true_iff in Td.
  rewrite EX, slice_to_neg_suffix by exact Td.
  rewrite join_snoc in EX.
  assert (HX : strip X <> []).
  { apply (match_keeps_text brk Hs (join (buf st)) line (current_delim st) X).
    - apply join_nonblank; assumption.
    - apply join_ends_with_break; assumption.
    - congruence.
    - exact Hd.
    - exact EX. }
  apply truthy_true_iff in HX. rewrite HX. discriminate.
Qed.

(** C9. At every line of every text stream (in either way of cutting the
    text into lines), the turn of the loop that handles the line leaves the
    buffer empty whenever it yields; leaves it empty or extended, never
    shortened otherwise; and empties a buffer that held lines only together
    with yielding a Statement. *)
Theorem buffer_cleared_with_emission m text pre raw post :
  text_lines m text = pre ++ raw :: post ->
  (fst (step (snd (run initial_state pre)) raw) <> None ->
     buf (snd (step (snd (run initial_state pre)) raw)) = [])
  /\ (buf (snd (step (snd (run initial_state pre)) raw)) = []
      \/ exists tl, buf (snd (step (snd (run initial_state pre)) raw))
                    = buf (snd (run initial_state pre)) ++ tl)
  /\ (buf (snd (run initial_state pre)) <> [] ->
      buf (snd (step (snd (run initial_state pre)) raw)) = [] ->
      fst (step (snd (run initial_state pre)) raw) <> None).
Proof.
  intros E.
  destruct (step_buf_shape (snd (run initial_state pre)) raw) as [H1 H2].
  split; [exact H1|]. split; [exact H2|].
  apply (step_clears_with_emission (line_break m)).
  - apply line_break_space.
  - apply run_stream_invariant.
    + apply line_break_space.
    + eapply text_lines_terminated; eauto.
    + apply initial_stream_invariant, line_break_space.
Qed.

Lemma buffer_cleared_with_emission_witness :
  (fst (step (snd (run initial_state [py "SELECT" ++ nl])) (py "1;" ++ nl))
     <> None ->
   buf (snd (step (snd (run initial_state [py "SELECT" ++ nl])) (py "1;" ++ nl)))
     = [])
  /\ (buf (snd (step (snd (run initial_state [py "SELECT" ++ nl])) (py "1;" ++ nl)))
      = []
      \/ exists tl,
          buf (snd (step (snd (run initial_state [py "SELECT" ++ nl])) (py "1;" ++ nl)))
          = buf (snd (run initial_state [py "SELECT" ++ nl])) ++ tl)
  /\ (buf (snd (run initial_state [py "SELECT" ++ nl])) <> [] ->
      buf (snd (step (snd (run initial_state [py "SELECT" ++ nl])) (py "1;" ++ nl)))
      = [] ->
      fst (step (snd (run initial_state [py "SELECT" ++ nl])) (py "1;" ++ nl))
      <> None).
Proof.
  apply (buffer_cleared_with_emission NewlineLF
           (py "SELECT" ++ nl ++ py "1;" ++ nl ++ py "x")
           [py "SELECT" ++ nl] (py "1;" ++ nl) [py "x"]).
  reflexivity.
Defined.

(** ** The replay driver *)

Lemma invoke_returns w c s :
  respond w c = None ->
  invoke w c s
  = (mkDriver (trace s ++ [(c, None)]) (console s)
              (applied s) (failed s) (batch s), Ret tt).
Proof. intros H. unfold invoke. rewrite H. reflexivity. Qed.

Lemma invoke_raises w c e s :
  respond w c = Some e ->
  invoke w c s
  = (mkDriver (trace s ++ [(c, Some e)]) (console s)
              (applied s) (failed s) (batch s), Raise e).
Proof. intros H. unfold invoke. rewrite H. reflexivity. Qed.

(** Lines 186-196, by what [cur.execute] does. *)
Lemma execute_statement_applied w stop n stmt s :
  respond w (Execute n stmt) = None ->
  execute_statement w stop n stmt s
  = (mkDriver (trace s ++ [(Execute n stmt, None)]) (console s)
              (applied s + 1) (failed s) (batch s + 1), Ret tt).
Proof.
  intros H. unfold execute_statement, try_except, bind.
  rewrite (invoke_returns _ _ _ H). reflexivity.
Qed.

Lemma execute_statement_failed w stop n stmt s :
  respond w (Execute n stmt) = Some MysqlError ->
  execute_statement w stop n stmt s
  = (mkDriver (trace s ++ [(Execute n stmt, Some MysqlError)])
              (console s ++ [ErrorReport (failed s + 1)
                                         (applied s + (failed s + 1))
                                         (firstn 1000 stmt)])
              (applied s) (failed s + 1) (batch s),
     if stop then Raise MysqlError else Ret tt).
Proof.
  intros H. unfold execute_statement, try_except, bind.
  rewrite (invoke_raises _ _ _ _ H). destruct stop; reflexivity.
Qed.

Lemma execute_statement_crashed w stop n stmt s :
  respond w (Execute n stmt) = Some OtherError ->
  execute_statement w stop n stmt s
  = (mkDriver (trace s ++ [(Execute n stmt, Some OtherError)]) (console s)
              (applied s) (failed s) (batch s), Raise OtherError).
Proof.
  intros H. unfold execute_statement, try_except, bind.
  rewrite (invoke_raises _ _ _ _ H). reflexivity.
Qed.

(** Lines 200-202. *)
Lemma periodic_commit_skipped w M n s :
  (Z.of_nat (batch s) >=? M)%Z = false ->
  periodic_commit w M n s = (s, Ret tt).
Proof.
  intros H. unfold periodic_commit, bind, get. rewrite H. reflexivity.
Qed.

Lemma periodic_commit_done w M n s :
  (Z.of_nat (batch s) >=? M)%Z = true ->
  respond w (BatchCommit n) = None ->
  periodic_commit w M n s
  = (mkDriver (trace s ++ [(BatchCommit n, None)]) (console s)
              (applied s) (failed s) 0, Ret tt).
Proof.
  intros H R. unfold periodic_commit, bind, get. rewrite H.
  rewrite (invoke_returns _ _ _ R). reflexivity.
Qed.

Lemma for_statements_cons w M stop n stmt rest s :
  for_statements w M stop n (stmt :: rest) s =
  match execute_statement w stop n stmt s with
  | (s1, Ret _) =>
      match periodic_commit w M n s1 with
      | (s2, Ret _) => for_statements w M stop (S n) rest s2
      | (s2, Raise e) => (s2, Raise e)
      end
  | (s1, Raise e) => (s1, Raise e)
  end.
Proof. reflexivity. Qed.

Lemma attempted_app a b : attempted (a ++ b) = attempted a ++ attempted b.
Proof. apply flat_map_app. Qed.

Lemma successes_failures w stmts : forall n,
  successes w n stmts + failures w n stmts = length stmts.
Proof.
  induction stmts as [|s rest IH]; intros n; simpl; auto.
  specialize (IH (S n)). destruct (succeeded w n s); lia.
Qed.

(** With [stop_on_error] off, the loop goes through every statement and
    counts each one once. *)
Lemma for_statements_nonstop w M :
  (forall n stmt, respond w (Execute n stmt) <> Some OtherError) ->
  (forall n, respond w (BatchCommit n) = None) ->
  forall stmts n s, exists s',
    for_statements w M false n stmts s = (s', Ret tt)
    /\ applied s' = applied s + successes w n stmts
    /\ failed s' = failed s + failures w n stmts
    /\ attempted (trace s') = attempted (trace s) ++ stmts.
Proof.
  intros Hx Hc. induction stmts as [|stmt rest IH]; intros n s.
  - exists s. simpl. rewrite !Nat.add_0_r, app_nil_r. auto.
  - rewrite for_statements_cons. unfold succeeded. cbn [successes failures].
    unfold succeeded.
    destruct (respond w (Execute n stmt)) as [[|]|] eqn:R.
    + rewrite (execute_statement_failed _ _ _ _ _ R).
      match goal with |- context [periodic_commit w M n ?x] => set (s1 := x) end.
      destruct (Z.of_nat (batch s1) >=? M)%Z eqn:B.
      * rewrite (periodic_commit_done _ _ _ _ B (Hc n)).
        match goal with |- context [for_statements w M false (S n) rest ?x] =>
          destruct (IH (S n) x) as [s' (E & A & F & T)] end.
        exists s'. rewrite E, A, F, T. cbn [applied failed trace].
        subst s1. cbn [trace]. rewrite !attempted_app. simpl.
        rewrite !app_nil_r, <- app_assoc. repeat split; try lia; try reflexivity.
      * rewrite (periodic_commit_skipped _ _ _ _ B).
        destruct (IH (S n) s1) as [s' (E & A & F & T)].
        exists s'. rewrite E, A, F, T. subst s1. cbn [applied failed trace].
        rewrite !attempted_app. simpl.
        rewrite <- app_assoc. repeat split; try lia; try reflexivity.
    + elim (Hx _ _ R).
    + rewrite (execute_statement_applied _ _ _ _ _ R).
      match goal with |- context [periodic_commit w M n ?x] => set (s1 := x) end.
      destruct (Z.of_nat (batch s1) >=? M)%Z eqn:B.
      * rewrite (periodic_commit_done _ _ _ _ B (Hc n)).
        match goal with |- context [for_statements w M false (S n) rest ?x] =>
          destruct (IH (S n) x) as [s' (E & A & F & T)] end.
        exists s'. rewrite E, A, F, T. cbn [applied failed trace].
        subst s1. cbn [trace applied failed]. rewrite !attempted_app. simpl.
        rewrite !app_nil_r, <- app_assoc. repeat split; try lia; try reflexivity.
      * rewrite (periodic_commit_skipped _ _ _ _ B).
        destruct (IH (S n) s1) as [s' (E & A & F & T)].
        exists s'. rewrite E, A, F, T. subst s1. cbn [applied failed trace].
        rewrite !attempted_app. simpl.
        rewrite <- app_assoc. repeat split; try lia; try reflexivity.
Qed.

(** Lines 156-176 when each call returns: the run reaches the [try]. *)
Lemma migrate_reaches_try w M stop :
  respond w Connect = None -> respond w OpenCursor = None ->
  respond w FkOff = None -> respond w FkOffCommit = None ->
  respond w OpenSource = None ->
  migrate_sql_to_mysql w M stop =
  match try_finally (try_body w M stop (stmt_iter w)) (cleanup w) after_prologue
  with
  | (s, Ret _) =>
      (mkDriver (trace s) (console s ++ [Summary (applied s) (failed s)])
                (applied s) (failed s) (batch s), Ret tt)
  | (s, Raise e) => (s, Raise e)
  end.
Proof.
  intros H1 H2 H3 H4 H5.
  unfold migrate_sql_to_mysql, migrate_body, bind, initial_driver.
  rewrite (invoke_returns _ _ _ H1). cbn [trace console applied failed batch app].
  rewrite (invoke_returns _ _ _ H2). cbn [trace console applied failed batch app].
  rewrite (invoke_returns _ _ _ H3). cbn [trace console applied failed batch app].
  rewrite (invoke_returns _ _ _ H4). cbn [trace console applied failed batch app].
  rewrite (invoke_returns _ _ _ H5). cbn [trace console applied failed batch app].
  unfold after_prologue, prologue_events.
  destruct (try_finally _ _ _) as [s [u|e]]; reflexivity.
Qed.

(** Lines 208-219 when each call returns. *)
Lemma cleanup_returns w s :
  respond w FkOn = None -> respond w FkOnCommit = None ->
  respond w CursorClose = None -> respond w ConnClose = None ->
  respond w StreamClose = None ->
  cleanup w s
  = (mkDriver (trace s ++ cleanup_events) (console s)
              (applied s) (failed s) (batch s), Ret tt).
Proof.
  intros H1 H2 H3 H4 H5. unfold cleanup, bind, try_except.
  rewrite (invoke_returns _ _ _ H1). cbn [trace console applied failed batch].
  rewrite (invoke_returns _ _ _ H2). cbn [trace console applied failed batch].
  rewrite (invoke_returns _ _ _ H3). cbn [trace console applied failed batch].
  rewrite (invoke_returns _ _ _ H4). cbn [trace console applied failed batch].
  rewrite (invoke_returns _ _ _ H5). cbn [trace console applied failed batch].
  unfold cleanup_events. rewrite <- !app_assoc. reflexivity.
Qed.

Lemma stmt_iter_whole w :
  read_failure w = None ->
  stmt_iter w = (_sql_statement_stream (source_lines w), None).
Proof. intros H. unfold stmt_iter. rewrite H. reflexivity. Qed.

(** C3. For a sequence of S statements of which exactly K fail against the
    destination (and nothing else fails), the run with [stop_on_error] off
    attempts all S statements, in order, returns, and reports
    [applied = S - K] and [failed = K]. *)
Theorem replay_counting w M K :
  only_statements_fail w ->
  failures w 0 (_sql_statement_stream (source_lines w)) = K ->
  snd (migrate_sql_to_mysql w M false) = Ret tt
  /\ attempted (trace (fst (migrate_sql_to_mysql w M false)))
     = _sql_statement_stream (source_lines w)
  /\ applied (fst (migrate_sql_to_mysql w M false))
     = length (_sql_statement_stream (source_lines w)) - K
  /\ failed (fst (migrate_sql_to_mysql w M false)) = K
  /\ exists reports,
       console (fst (migrate_sql_to_mysql w M false))
       = reports
         ++ [Summary (length (_sql_statement_stream (source_lines w)) - K) K].
Proof.
  intros (Hc & Hx & Hr) HK.
  rewrite migrate_reaches_try by (apply Hc; reflexivity).
  unfold try_finally, try_body, bind. rewrite (stmt_iter_whole w Hr).
  cbn [fst snd].
  destruct (for_statements_nonstop w M Hx (fun n => Hc (BatchCommit n) eq_refl)
              (_sql_statement_stream (source_lines w)) 0 after_prologue)
    as [s' (E & A & F & T)].
  rewrite E. unfold get.
  pose proof (successes_failures w (_sql_statement_stream (source_lines w)) 0) as SF.
  cbn [applied failed trace after_prologue] in A, F, T.
  assert (A' : applied s' = length (_sql_statement_stream (source_lines w)) - K) by lia.
  assert (F' : failed s' = K) by lia.
  destruct (0 <? batch s').
  - rewrite (invoke_returns _ _ _ (Hc FinalCommit eq_refl)).
    rewrite cleanup_returns by (apply Hc; reflexivity).
    cbn [fst snd trace console applied failed batch].
    rewrite !attempted_app, T. simpl. rewrite !app_nil_r.
    repeat split; auto. rewrite A', F'. eauto.
  - unfold ret. rewrite cleanup_returns by (apply Hc; reflexivity).
    cbn [fst snd trace console applied failed batch].
    rewrite !attempted_app, T. simpl. rewrite !app_nil_r.
    repeat split; auto. rewrite A', F'. eauto.
Qed.

Ltac concrete_world :=
  split; [intros c Hc; destruct c; try discriminate Hc; reflexivity|];
  split; [intros n stmt; simpl; destruct n as [|[|n]]; discriminate
         | reflexivity].

Lemma replay_counting_witness :
  snd (migrate_sql_to_mysql one_refused 2 false) = Ret tt
  /\ attempted (trace (fst (migrate_sql_to_mysql one_refused 2 false)))
     = _sql_statement_stream (source_lines one_refused)
  /\ applied (fst (migrate_sql_to_mysql one_refused 2 false))
     = length (_sql_statement_stream (source_lines one_refused)) - 1
  /\ failed (fst (migrate_sql_to_mysql one_refused 2 false)) = 1
  /\ exists reports,
       console (fst (migrate_sql_to_mysql one_refused 2 false))
       = reports
         ++ [Summary (length (_sql_statement_stream (source_lines one_refused)) - 1) 1].
Proof.
  apply (replay_counting one_refused 2 1).
  - concrete_world.
  - reflexivity.
Defined.

(** ** Commit batching *)

Lemma mod_succ m d :
  0 < m ->
  (d + 1) mod m = if d mod m + 1 =? m then 0 else d mod m + 1.
Proof.
  intros Hm. pose proof (Nat.div_mod_eq d m) as E.
  pose proof (Nat.mod_upper_bound d m ltac:(lia)) as U.
  destruct (d mod m + 1 =? m) eqn:T.
  - apply Nat.eqb_eq in T. symmetry.
    apply (Nat.mod_unique (d + 1) m (d / m + 1) 0); lia.
  - apply Nat.eqb_neq in T. symmetry.
    apply (Nat.mod_unique (d + 1) m (d / m) (d mod m + 1)); lia.
Qed.

Lemma div_succ m d :
  0 < m ->
  (d + 1) / m = d / m + (if (d + 1) mod m =? 0 then 1 else 0).
Proof.
  intros Hm. pose proof (Nat.div_mod_eq d m) as E.
  pose proof (Nat.mod_upper_bound d m ltac:(lia)) as U.
  rewrite (mod_succ m d Hm).
  destruct (d mod m + 1 =? m) eqn:T.
  - apply Nat.eqb_eq in T. simpl. symmetry.
    apply (Nat.div_unique (d + 1) m (d / m + 1) 0); lia.
  - apply Nat.eqb_neq in T.
    replace (d mod m + 1 =? 0) with false by (symmetry; apply Nat.eqb_neq; lia).
    symmetry. apply (Nat.div_unique (d + 1) m (d / m + 0) (d mod m + 1)); lia.
Qed.

(** The resetting counter of the loop follows the count of successes
    modulo [commit_every]: the loop issues the calls of [commit_schedule]. *)
Lemma for_statements_schedule w m stop :
  0 < m ->
  (forall n, respond w (BatchCommit n) = None) ->
  forall stmts n done s,
    (forall k stmt, nth_error stmts k = Some stmt ->
                    aborts w stop (n + k) stmt = false) ->
    batch s = done mod m ->
    exists s',
      for_statements w (Z.of_nat m) stop n stmts s = (s', Ret tt)
      /\ trace s' = trace s ++ commit_schedule w m done n stmts
      /\ batch s' = (done + successes w n stmts) mod m.
Proof.
  intros Hm Hc. induction stmts as [|stmt rest IH]; intros n done s Ha Hb.
  - exists s. simpl. rewrite Nat.add_0_r, app_nil_r. auto.
  - pose proof (Nat.mod_upper_bound done m ltac:(lia)) as U.
    rewrite for_statements_cons. cbn [commit_schedule successes].
    pose proof (Ha 0 stmt eq_refl) as An. rewrite Nat.add_0_r in An.
    unfold aborts in An.
    assert (Ha' : forall k stmt', nth_error rest k = Some stmt' ->
                    aborts w stop (S n + k) stmt' = false).
    { intros k stmt' Hk. specialize (Ha (S k) stmt' Hk).
      rewrite Nat.add_succ_r in Ha. exact Ha. }
    unfold succeeded.
    destruct (respond w (Execute n stmt)) as [[|]|] eqn:R.
    + subst stop. rewrite (execute_statement_failed _ _ _ _ _ R).
      rewrite periodic_commit_skipped
        by (cbn [batch]; rewrite Z.geb_leb; apply Z.leb_gt; lia).
      match goal with |- context [for_statements _ _ _ (S n) rest ?x] =>
        destruct (IH (S n) (done + 0) x Ha') as [s' (E & T & B)] end.
      { cbn [batch]. rewrite Nat.add_0_r. exact Hb. }
      exists s'. rewrite E, T, B. cbn [trace andb app].
      rewrite <- app_assoc, Nat.add_assoc. auto.
    + discriminate An.
    + rewrite (execute_statement_applied _ _ _ _ _ R).
      pose proof (mod_succ m done Hm) as MS.
      destruct (done mod m + 1 =? m) eqn:T.
      * apply Nat.eqb_eq in T.
        rewrite periodic_commit_done;
          [| cbn [batch]; rewrite Z.geb_leb; apply Z.leb_le; lia | apply Hc].
        match goal with |- context [for_statements _ _ _ (S n) rest ?x] =>
          destruct (IH (S n) (done + 1) x Ha') as [s' (E & Tr & B)] end.
        { cbn [batch]. rewrite MS. reflexivity. }
        exists s'. rewrite E, Tr, B. cbn [trace andb].
        rewrite MS. cbn [Nat.eqb app].
        rewrite <- !app_assoc, Nat.add_assoc. auto.
      * apply Nat.eqb_neq in T.
        rewrite periodic_commit_skipped
          by (cbn [batch]; rewrite Z.geb_leb; apply Z.leb_gt; lia).
        match goal with |- context [for_statements _ _ _ (S n) rest ?x] =>
          destruct (IH (S n) (done + 1) x Ha') as [s' (E & Tr & B)] end.
        { cbn [batch]. rewrite MS. lia. }
        exists s'. rewrite E, Tr, B. cbn [trace andb].
        rewrite MS.
        replace (done mod m + 1 =? 0) with false
          by (symmetry; apply Nat.eqb_neq; lia).
        cbn [app]. rewrite <- !app_assoc, Nat.add_assoc. auto.
Qed.

(** In the schedule, the commits number one for every full [m] successes. *)
Lemma commit_schedule_count w m : 0 < m ->
  forall stmts done n,
    length (filter is_batch_commit (commit_schedule w m done n stmts))
    = (done + successes w n stmts) / m - done / m.
Proof.
  intros Hm. induction stmts as [|stmt rest IH]; intros done n.
  - simpl. rewrite Nat.add_0_r. lia.
  - cbn [commit_schedule successes filter is_batch_commit fst].
    rewrite filter_app, length_app, IH.
    destruct (succeeded w n stmt).
    + rewrite Nat.add_assoc. pose proof (div_succ m done Hm) as DS.
      assert (Mono : (done + 1) / m <= (done + 1 + successes w (S n) rest) / m).
      { apply Nat.Div0.div_le_mono. lia. }
      destruct ((done + 1) mod m =? 0); simpl; lia.
    + rewrite !Nat.add_0_r. simpl. lia.
Qed.

(** C5. With [commit_every = m > 0], when nothing ends the run early, the
    calls of the run are: the prologue; each statement executed in turn,
    followed by a commit exactly when it succeeded and the successes so far
    number a multiple of [m] (a failed statement never brings a commit
    nearer); one final commit exactly when the successes leave a remainder
    modulo [m]; the cleanup.  The commits of the loop number one for every
    full [m] successes. *)
Theorem commit_batching w m stop :
  0 < m ->
  (forall c, is_execute c = false -> respond w c = None) ->
  read_failure w = None ->
  (forall n stmt, aborts w stop n stmt = false) ->
  trace (fst (migrate_sql_to_mysql w (Z.of_nat m) stop))
  = prologue_events
    ++ commit_schedule w m 0 0 (_sql_statement_stream (source_lines w))
    ++ (if successes w 0 (_sql_statement_stream (source_lines w)) mod m =? 0
        then [] else [(FinalCommit, None)])
    ++ cleanup_events
  /\ length (filter is_batch_commit
               (trace (fst (migrate_sql_to_mysql w (Z.of_nat m) stop))))
     = successes w 0 (_sql_statement_stream (source_lines w)) / m.
Proof.
  intros Hm Hc Hr Ha.
  assert (T : trace (fst (migrate_sql_to_mysql w (Z.of_nat m) stop))
    = prologue_events
      ++ commit_schedule w m 0 0 (_sql_statement_stream (source_lines w))
      ++ (if successes w 0 (_sql_statement_stream (source_lines w)) mod m =? 0
          then [] else [(FinalCommit, None)])
      ++ cleanup_events).
  { rewrite migrate_reaches_try by (apply Hc; reflexivity).
    unfold try_finally, try_body, bind. rewrite (stmt_iter_whole w Hr).
    cbn [fst snd].
    destruct (for_statements_schedule w m stop Hm
                (fun n => Hc (BatchCommit n) eq_refl)
                (_sql_statement_stream (source_lines w)) 0 0 after_prologue)
      as [s' (E & Tr & B)].
    { intros k stmt _. apply Ha. }
    { cbn [batch after_prologue]. symmetry. apply Nat.Div0.mod_0_l. }
    rewrite E. unfold get. rewrite B. cbn [Nat.add trace after_prologue] in *.
    destruct (successes w 0 (_sql_statement_stream (source_lines w)) mod m)
      as [|r] eqn:Er.
    - cbn [Nat.ltb Nat.leb Nat.eqb]. unfold ret.
      rewrite cleanup_returns by (apply Hc; reflexivity).
      cbn [fst trace]. rewrite Tr, <- app_assoc. reflexivity.
    - cbn [Nat.ltb Nat.leb Nat.eqb].
      rewrite (invoke_returns _ _ _ (Hc FinalCommit eq_refl)).
      rewrite cleanup_returns by (apply Hc; reflexivity).
      cbn [fst trace]. rewrite Tr, <- !app_assoc. reflexivity. }
  split; [exact T|]. rewrite T.
  rewrite !filter_app, !length_app, (commit_schedule_count w m Hm).
  cbn [Nat.add]. rewrite Nat.Div0.div_0_l.
  destruct (successes w 0 (_sql_statement_stream (source_lines w)) mod m =? 0);
    simpl; lia.
Qed.

Lemma commit_batching_witness :
  trace (fst (migrate_sql_to_mysql one_refused (Z.of_nat 2) false))
  = prologue_events
    ++ commit_schedule one_refused 2 0 0
         (_sql_statement_stream (source_lines one_refused))
    ++ (if successes one_refused 0
             (_sql_statement_stream (source_lines one_refused)) mod 2 =? 0
        then [] else [(FinalCommit, None)])
    ++ cleanup_events
  /\ length (filter is_batch_commit
               (trace (fst (migrate_sql_to_mysql one_refused (Z.of_nat 2) false))))
     = successes one_refused 0
         (_sql_statement_stream (source_lines one_refused)) / 2.
Proof.
  apply (commit_batching one_refused 2 false).
  - lia.
  - intros c Hc; destruct c; try discriminate Hc; reflexivity.
  - reflexivity.
  - intros n stmt. unfold aborts. simpl.
    destruct n as [|[|n]]; reflexivity.
Defined.

(** ** Abort on error *)

Lemma for_statements_app w M stop a : forall b n s,
  for_statements w M stop n (a ++ b) s =
  match for_statements w M stop n a s with
  | (s1, Ret _) => for_statements w M stop (n + length a) b s1
  | (s1, Raise e) => (s1, Raise e)
  end.
Proof.
  induction a as [|x a IH]; intros b n s.
  - simpl. rewrite Nat.add_0_r. reflexivity.
  - simpl app. rewrite !for_statements_cons.
    destruct (execute_statement w stop n x s) as [s1 [u|e]]; [|reflexivity].
    destruct (periodic_commit w M n s1) as [s2 [u2|e]]; [|reflexivity].
    rewrite IH. cbn [length]. rewrite Nat.add_succ_r. reflexivity.
Qed.

Lemma successes_le w stmts : forall n, successes w n stmts <= length stmts.
Proof.
  intros n. pose proof (successes_failures w stmts n). lia.
Qed.

(** While every statement succeeds the loop applies each one and reports
    nothing. *)
Lemma for_statements_all_applied w M stop :
  (forall n, respond w (BatchCommit n) = None) ->
  forall stmts n s,
    successes w n stmts = length stmts ->
    exists s',
      for_statements w M stop n stmts s = (s', Ret tt)
      /\ attempted (trace s') = attempted (trace s) ++ stmts
      /\ applied s' = applied s + length stmts
      /\ failed s' = failed s
      /\ console s' = console s.
Proof.
  intros Hc. induction stmts as [|stmt rest IH]; intros n s Hs.
  - exists s. simpl. rewrite Nat.add_0_r, app_nil_r. auto.
  - cbn [successes length] in Hs.
    pose proof (successes_le w rest (S n)) as Le.
    unfold succeeded in Hs.
    destruct (respond w (Execute n stmt)) as [e|] eqn:R; [lia|].
    assert (Hs' : successes w (S n) rest = length rest) by lia.
    rewrite for_statements_cons, (execute_statement_applied _ _ _ _ _ R).
    match goal with |- context [periodic_commit w M n ?x] => set (s1 := x) end.
    destruct (Z.of_nat (batch s1) >=? M)%Z eqn:B.
    + rewrite (periodic_commit_done _ _ _ _ B (Hc n)).
      match goal with |- context [for_statements _ _ _ (S n) rest ?x] =>
        destruct (IH (S n) x Hs') as [s' (E & T & A & F & C)] end.
      exists s'. rewrite E, T, A, F, C. subst s1.
      cbn [trace applied failed console length].
      rewrite !attempted_app. simpl. rewrite !app_nil_r, <- app_assoc.
      repeat split; try lia; try reflexivity.
    + rewrite (periodic_commit_skipped _ _ _ _ B).
      destruct (IH (S n) s1 Hs') as [s' (E & T & A & F & C)].
      exists s'. rewrite E, T, A, F, C. subst s1.
      cbn [trace applied failed console length].
      rewrite !attempted_app. simpl. rewrite <- app_assoc.
      repeat split; try lia; try reflexivity.
Qed.

(** What the [finally] block leaves of the trace: it attempts no
    statement. *)
Lemma cleanup_attempts_nothing w s :
  attempted (trace (fst (cleanup w s))) = attempted (trace s)
  /\ applied (fst (cleanup w s)) = applied s
  /\ failed (fst (cleanup w s)) = failed s
  /\ console (fst (cleanup w s)) = console s.
Proof.
  unfold cleanup, bind, try_except, invoke, ret.
  cbn [trace console applied failed batch].
  destruct (respond w FkOn) as [e1|];
    [|destruct (respond w FkOnCommit) as [e2|]];
    cbn [trace console applied failed batch];
    (destruct (respond w CursorClose) as [e3|];
     [|destruct (respond w ConnClose) as [e4|];
       [|destruct (respond w StreamClose) as [e5|]]]);
    cbn [fst trace console applied failed batch];
    rewrite ?attempted_app; simpl; rewrite ?app_nil_r; auto.
Qed.

(** C8. With [stop_on_error] on, when the statements before the i-th
    succeed and the i-th fails against the destination, exactly i
    statements are attempted (the i-th is the last), the failure is counted
    and reported, and the run ends by raising: no later statement is
    processed. *)
Theorem abort_on_error w M pre bad post :
  (forall c, is_execute c = false -> respond w c = None) ->
  fst (stmt_iter w) = pre ++ bad :: post ->
  successes w 0 pre = length pre ->
  respond w (Execute (length pre) bad) = Some MysqlError ->
  snd (migrate_sql_to_mysql w M true) = Raise MysqlError
  /\ attempted (trace (fst (migrate_sql_to_mysql w M true))) = pre ++ [bad]
  /\ length (attempted (trace (fst (migrate_sql_to_mysql w M true))))
     = length pre + 1
  /\ applied (fst (migrate_sql_to_mysql w M true)) = length pre
  /\ failed (fst (migrate_sql_to_mysql w M true)) = 1
  /\ console (fst (migrate_sql_to_mysql w M true))
     = [ErrorReport 1 (length pre + 1) (firstn 1000 bad)].
Proof.
  intros Hc Hit Hs Hbad.
  rewrite migrate_reaches_try by (apply Hc; reflexivity).
  unfold try_finally, try_body, bind. rewrite Hit, for_statements_app.
  destruct (for_statements_all_applied w M true
              (fun n => Hc (BatchCommit n) eq_refl) pre 0 after_prologue Hs)
    as [s1 (E & T & A & F & C)].
  rewrite E. cbn [Nat.add]. rewrite for_statements_cons.
  rewrite (execute_statement_failed _ _ _ _ _ Hbad).
  match goal with |- context [cleanup w ?x] => set (s2 := x) end.
  destruct (cleanup_attempts_nothing w s2) as (CT & CA & CF & CC).
  rewrite (cleanup_returns w s2) in * by (apply Hc; reflexivity).
  cbn [fst snd] in *. rewrite CT, CA, CF, CC. subst s2.
  cbn [trace applied failed console]. rewrite attempted_app, T, A, F, C.
  cbn [after_prologue trace applied failed console].
  simpl attempted. rewrite length_app. simpl.
  replace (length pre + 1) with (S (length pre)) by lia.
  repeat split; try lia; try reflexivity.
Qed.

Lemma abort_on_error_witness :
  snd (migrate_sql_to_mysql one_refused 200 true) = Raise MysqlError
  /\ attempted (trace (fst (migrate_sql_to_mysql one_refused 200 true)))
     = [py "INSERT 1"] ++ [py "BAD"]
  /\ length (attempted (trace (fst (migrate_sql_to_mysql one_refused 200 true))))
     = length [py "INSERT 1"] + 1
  /\ applied (fst (migrate_sql_to_mysql one_refused 200 true))
     = length [py "INSERT 1"]
  /\ failed (fst (migrate_sql_to_mysql one_refused 200 true)) = 1
  /\ console (fst (migrate_sql_to_mysql one_refused 200 true))
     = [ErrorReport 1 (length [py "INSERT 1"] + 1) (firstn 1000 (py "BAD"))].
Proof.
  apply (abort_on_error one_refused 200 [py "INSERT 1"] (py "BAD")
                        [py "INSERT 3"]).
  - intros c Hc; destruct c; try discriminate Hc; reflexivity.
  - reflexivity.
  - reflexivity.
  - reflexivity.
Defined.

(** ** What an abort leaves durable *)









(** ** Cleanup *)

(** Once the run is inside the [try], the [finally] block is entered on
    every exit: the re-enabling of the checks and the closing of the cursor
    are attempted whatever the body did. *)
Lemma cleanup_attempted w M stop :
  respond w Connect = None -> respond w OpenCursor = None ->
  respond w FkOff = None -> respond w FkOffCommit = None ->
  respond w OpenSource = None ->
  In (FkOn, respond w FkOn) (trace (fst (migrate_sql_to_mysql w M stop)))
  /\ In (CursorClose, respond w CursorClose)
        (trace (fst (migrate_sql_to_mysql w M stop))).
Proof.
  intros H1 H2 H3 H4 H5. rewrite migrate_reaches_try by assumption.
  unfold try_finally.
  destruct (try_body w M stop (stmt_iter w) after_prologue) as [s1 r].
  assert (C : In (FkOn, respond w FkOn) (trace (fst (cleanup w s1)))
              /\ In (CursorClose, respond w CursorClose)
                    (trace (fst (cleanup w s1)))).
  { unfold cleanup, bind, try_except, invoke, ret.
    cbn [trace console applied failed batch].
    destruct (respond w FkOn) as [e1|];
      [|destruct (respond w FkOnCommit) as [e2|]];
      cbn [trace console applied failed batch];
      (destruct (respond w CursorClose) as [e3|];
       [|destruct (respond w ConnClose) as [e4|];
         [|destruct (respond w StreamClose) as [e5|]]]);
      cbn [fst trace]; rewrite !in_app_iff; simpl; tauto. }
  destruct (cleanup w s1) as [s2 [u|e]]; [destruct r as [u'|e']|];
    cbn [fst trace] in *; exact C.
Qed.

(** C4. A source that cannot be opened: the loader raises at line 176,
    after the connection is opened and the checks are disabled and before
    the [try]; the run ends there, with no attempt to re-enable the checks
    and without closing the cursor or the connection. *)
Theorem loader_error_skips_cleanup :
  migrate_sql_to_mysql source_unreachable 200 false
  = (mkDriver [(Connect, None); (OpenCursor, None); (FkOff, None);
               (FkOffCommit, None); (OpenSource, Some OtherError)]
              [] 0 0 0,
     Raise OtherError)
  /\ ~ In FkOn (map fst (trace (fst (migrate_sql_to_mysql source_unreachable 200 false))))
  /\ ~ In CursorClose
        (map fst (trace (fst (migrate_sql_to_mysql source_unreachable 200 false))))
  /\ ~ In ConnClose
        (map fst (trace (fst (migrate_sql_to_mysql source_unreachable 200 false)))).
Proof.
  repeat split; try reflexivity; vm_compute; intuition discriminate.
Qed.

(** ** Comments *)

(** A line that the comment handling lets through as a line comment is
    skipped: nothing is yielded and neither the buffer nor the delimiter
    changes. *)
Lemma step_line_comment st raw line inside :
  comment_pass (in_block_comment st) raw = (Some line, inside) ->
  startswith (upper (strip line)) (py "DELIMITER ") = false ->
  startswith (strip line) (py "--") || startswith (strip line) (py "#") = true ->
  step st raw = (None, mkState (current_delim st) (buf st) inside).
Proof.
  intros Hc Hd Hl. unfold step. rewrite Hc.
  destruct (negb (truthy (strip line))); [reflexivity|].
  rewrite Hd, Hl. reflexivity.
Qed.

(** C6. On the line [//**/*/*/ secret */ x;] the text [ secret ] lies
    inside the second block-comment span, [/*/ secret */]; the text outside
    the spans is [/* x;].  The tokenizer yields [secret */ x]: after
    removing the first span [/**/] it searches the joined remainder again
    from its start, takes the [/] before the span and the [*] after it for
    an opening marker, and closes that at the [*/] inside [/*/]. *)
Theorem comment_text_leaks :
  _sql_statement_stream [seam_line] = [py "secret */ x"]
  /\ outside_spans seam_line = py "/* x;"
  /\ firstn 6 (skipn 10 seam_line) = py "secret"
  /\ firstn 6 (skipn 10 (span_mask false 0 seam_line))
     = [true; true; true; true; true; true].
Proof.
  repeat split; vm_compute; reflexivity.
Qed.

(** * Further properties *)

(** ** Of the tokenizer *)

Lemma step_emits_trimmed st raw s :
  fst (step st raw) = Some s -> s <> [] /\ strip s = s.
Proof.
  unfold step.
  destruct (comment_pass (in_block_comment st) raw) as [[line|] inside];
    [|discriminate].
  destruct (negb (truthy (strip line))); [discriminate|].
  destruct (startswith (upper (strip line)) (py "DELIMITER ")).
  { cbn [fst]. unfold flush_partial.
    destruct (truthy (buf st)); [|discriminate].
    destruct (truthy (strip (join (buf st)))) eqn:T; [|discriminate].
    intros H; inversion H; subst. split.
    - apply truthy_true_iff. exact T.
    - apply strip_idem. }
  destruct (startswith (strip line) (py "--") || startswith (strip line) (py "#"));
    [discriminate|].
  destruct (truthy (current_delim st) && _); [|discriminate].
  cbn [fst].
  match goal with |- context [truthy ?x] => destruct (truthy x) eqn:T end;
    [|discriminate].
  intros H; inversion H; subst. split.
  - apply truthy_true_iff. exact T.
  - apply strip_idem.
Qed.

Lemma run_emits_trimmed lines : forall st,
  Forall (fun s => s <> [] /\ strip s = s) (fst (run st lines)).
Proof.
  induction lines as [|l rest IH]; intros st; simpl; [constructor|].
  pose proof (step_emits_trimmed st l) as H.
  destruct (step st l) as [o st1]. specialize (IH st1).
  destruct (run st1 rest) as [out st2]. simpl in *.
  apply Forall_app. split; [|exact IH].
  destruct o as [s|]; simpl; constructor; [apply H; reflexivity | constructor].
Qed.

(** X1. Every Statement the tokenizer yields, on any lines, is non-empty and
    trimmed: it has no leading or trailing whitespace. *)
Theorem statements_trimmed lines :
  Forall (fun s => s <> [] /\ strip s = s) (_sql_statement_stream lines).
Proof.
  unfold _sql_statement_stream, stream_from.
  pose proof (run_emits_trimmed lines initial_state) as H.
  destruct (run initial_state lines) as [out st]. simpl in H.
  apply Forall_app. split; [exact H|].
  unfold flush_tail. destruct (truthy (strip (join (buf st)))) eqn:T;
    constructor; [|constructor]. split.
  - apply truthy_true_iff. exact T.
  - apply strip_idem.
Qed.

Lemma step_count st raw :
  length (opt_list (fst (step st raw)))
  + (if truthy (buf (snd (step st raw))) then 1 else 0)
  <= 1 + (if truthy (buf st) then 1 else 0).
Proof.
  unfold step.
  destruct (comment_pass (in_block_comment st) raw) as [[line|] inside];
    [|simpl; lia].
  destruct (negb (truthy (strip line))); [simpl; lia|].
  destruct (startswith (upper (strip line)) (py "DELIMITER ")).
  { cbn [fst snd buf truthy]. unfold flush_partial.
    destruct (truthy (buf st)); [|simpl; lia].
    destruct (truthy (strip (join (buf st)))); simpl; lia. }
  destruct (startswith (strip line) (py "--") || startswith (strip line) (py "#"));
    [simpl; lia|].
  destruct (truthy (current_delim st) && _); cbn [fst snd buf].
  - match goal with |- context [if truthy ?x then Some _ else None] =>
      destruct (truthy x) end; simpl; lia.
  - destruct (truthy (buf st ++ [line])); destruct (truthy (buf st)); simpl; lia.
Qed.

Lemma run_count lines : forall st,
  length (fst (run st lines))
  + (if truthy (buf (snd (run st lines))) then 1 else 0)
  <= length lines + (if truthy (buf st) then 1 else 0).
Proof.
  induction lines as [|l rest IH]; intros st; simpl; [lia|].
  pose proof (step_count st l) as H.
  destruct (step st l) as [o st1]. specialize (IH st1).
  destruct (run st1 rest) as [out st2]. simpl in *.
  rewrite length_app. lia.
Qed.

(** X2. The tokenizer yields at most one Statement per line read: the
    Statements of a stream are never more than its lines. *)
Theorem statements_at_most_lines lines :
  length (_sql_statement_stream lines) <= length lines.
Proof.
  unfold _sql_statement_stream, stream_from.
  pose proof (run_count lines initial_state) as H.
  destruct (run initial_state lines) as [out st]. simpl in H.
  rewrite length_app. unfold flush_tail.
  destruct (truthy (buf st)) eqn:B.
  - destruct (truthy (strip (join (buf st)))); simpl; lia.
  - apply truthy_false_iff in B. rewrite B. simpl. lia.
Qed.

Lemma upper_char_space c : upper_char c = Ascii.ascii_of_nat 32 -> c = Ascii.ascii_of_nat 32.
Proof.
  destruct c as [[] [] [] [] [] [] [] []]; vm_compute; intros H;
    try reflexivity; discriminate H.
Qed.

Lemma upper_char_nonspace c : isspace (upper_char c) = false -> isspace c = false.
Proof.
  destruct c as [[] [] [] [] [] [] [] []]; vm_compute; intros H;
    try reflexivity; discriminate H.
Qed.

Lemma rstrip_length s : length (rstrip s) <= length s.
Proof.
  destruct (rstrip_split s) as [ws [E _]].
  rewrite E at 2. rewrite length_app. lia.
Qed.

Lemma upper_length s : length (upper s) = length s.
Proof. apply length_map. Qed.

(** A trimmed line that begins with the directive keyword has text after
    it: the keyword ends with a space, which a trimmed line cannot end
    with. *)
Lemma directive_has_delimiter line :
  strip line <> [] ->
  startswith (upper (strip line)) (py "DELIMITER ") = true ->
  strip (skipn (length delim_token) (strip line)) <> [].
Proof.
  intros Hne Hd C. apply strip_nil_iff in C.
  apply startswith_iff in Hd as [t Et]. unfold upper in Et.
  apply map_eq_app in Et as [p [q [Ec [Ep Eq]]]].
  assert (Lp : length p = 10).
  { rewrite <- (length_map upper_char), Ep. reflexivity. }
  destruct (exists_last (l := p)) as [p' [x Ex]].
  { intros ->. discriminate Lp. }
  subst p. rewrite map_app in Ep. cbn [map] in Ep.
  change (py "DELIMITER ") with (py "DELIMITER" ++ [Ascii.ascii_of_nat 32]) in Ep.
  apply app_inj_tail in Ep as [_ Hx]. apply upper_char_space in Hx. subst x.
  assert (Sk : skipn (length delim_token) (strip line) = q).
  { rewrite Ec.
    pose proof (skipn_exact (p' ++ [Ascii.ascii_of_nat 32]) q) as X.
    rewrite Lp in X. exact X. }
  rewrite Sk in C.
  assert (R : rstrip (strip line) = rstrip p').
  { rewrite Ec, <- app_assoc. apply rstrip_app_blank.
    rewrite blank_app. simpl. exact C. }
  rewrite rstrip_strip in R.
  pose proof (rstrip_length p') as L. rewrite <- R, Ec in L.
  rewrite !length_app in L. simpl in L. lia.
Qed.

Lemma step_delimiter st raw :
  current_delim st <> [] /\ strip (current_delim st) = current_delim st ->
  current_delim (snd (step st raw)) <> []
  /\ strip (current_delim (snd (step st raw)))
     = current_delim (snd (step st raw)).
Proof.
  intros H. unfold step.
  destruct (comment_pass (in_block_comment st) raw) as [[line|] inside];
    [|exact H].
  destruct (truthy (strip line)) eqn:T; [|exact H]. simpl negb. cbv iota.
  destruct (startswith (upper (strip line)) (py "DELIMITER ")) eqn:D.
  { cbn [snd current_delim]. split.
    - apply directive_has_delimiter; [apply truthy_true_iff, T | exact D].
    - apply strip_idem. }
  destruct (startswith (strip line) (py "--") || startswith (strip line) (py "#"));
    [exact H|].
  destruct (truthy (current_delim st) && _); exact H.
Qed.

(** X3. In every state the tokenizer reaches, the active delimiter is a
    non-empty trimmed string: a DELIMITER directive always carries one, so
    the guard [current_delim and ...] of line 120 never switches the
    matching off. *)
Theorem delimiter_never_empty lines :
  current_delim (snd (run initial_state lines)) <> []
  /\ strip (current_delim (snd (run initial_state lines)))
     = current_delim (snd (run initial_state lines)).
Proof.
  assert (G : forall ls st,
    (current_delim st <> [] /\ strip (current_delim st) = current_delim st) ->
    current_delim (snd (run st ls)) <> []
    /\ strip (current_delim (snd (run st ls))) = current_delim (snd (run st ls))).
  { induction ls as [|l rest IH]; intros st H; simpl; [exact H|].
    pose proof (step_delimiter st l H) as H1.
    destruct (step st l) as [o st1]. specialize (IH st1 H1).
    destruct (run st1 rest). exact IH. }
  apply G. split; [discriminate | reflexivity].
Qed.

Lemma state_eta st :
  mkState (current_delim st) (buf st) (in_block_comment st) = st.
Proof. destruct st; reflexivity. Qed.

Lemma step_skippable st l :
  in_block_comment st = false -> skippable_line l -> step st l = (None, st).
Proof.
  intros Hi [Hc Hs]. destruct st as [d b i]. cbn [in_block_comment] in Hi.
  subst i. unfold step. cbn [in_block_comment current_delim buf].
  rewrite (comment_pass_plain l Hc).
  destruct Hs as [Hb | [Hd Hl]].
  - rewrite Hb. reflexivity.
  - destruct (negb (truthy (strip l))); [reflexivity|].
    rewrite Hd, Hl. reflexivity.
Qed.

Lemma run_skippable lines : forall st,
  in_block_comment st = false -> Forall skippable_line lines ->
  run st lines = ([], st).
Proof.
  induction lines as [|l rest IH]; intros st Hi Hl; [reflexivity|].
  inversion Hl; subst. simpl. rewrite (step_skippable st l Hi H1).
  rewrite (IH st Hi H2). reflexivity.
Qed.

(** X4. Blank lines and line comments ([--], [#]) outside a block comment
    change nothing: a run of them inserted anywhere in a stream leaves the
    Statements yielded as they were, and a stream of such lines only yields
    no Statement. *)
Theorem skippable_lines_ignored :
  (forall st a skipped b,
      in_block_comment (snd (run st a)) = false ->
      Forall skippable_line skipped ->
      stream_from st (a ++ skipped ++ b) = stream_from st (a ++ b))
  /\ (forall lines,
      Forall skippable_line lines -> _sql_statement_stream lines = []).
Proof.
  split.
  - intros st a skipped b Hi Hs.
    rewrite !stream_from_app. f_equal.
    rewrite (run_skippable skipped _ Hi Hs). reflexivity.
  - intros lines Hs. unfold _sql_statement_stream, stream_from.
    rewrite (run_skippable lines initial_state eq_refl Hs). reflexivity.
Qed.

Lemma skippable_lines_ignored_witness :
  stream_from initial_state
    ([py "SELECT"] ++ [py "-- note"; py "   "; py "# more"] ++ [py "1;"])
  = stream_from initial_state ([py "SELECT"] ++ [py "1;"])
  /\ _sql_statement_stream [py "-- note"; py "   "; py "# more"] = [].
Proof.
  split.
  - apply (proj1 skippable_lines_ignored initial_state [py "SELECT"]
                 [py "-- note"; py "   "; py "# more"] [py "1;"]).
    + reflexivity.
    + repeat (apply Forall_cons;
              [split; [reflexivity | first [left; reflexivity
                                            | right; split; reflexivity]]|]).
      apply Forall_nil.
  - apply (proj2 skippable_lines_ignored [py "-- note"; py "   "; py "# more"]).
    repeat (apply Forall_cons;
            [split; [reflexivity | first [left; reflexivity
                                          | right; split; reflexivity]]|]).
    apply Forall_nil.
Defined.

(** The first occurrence of a two-character marker whose characters differ
    is where it is written, when none comes before. *)
Lemma find0_first_marker x y pre rest :
  x <> y ->
  find0 pre [x; y] = None ->
  find0 (pre ++ [x; y] ++ rest) [x; y] = Some (length pre).
Proof.
  intros Hxy. induction pre as [|c p IH]; intros Hn.
  - rewrite find0_eq.
    assert (S0 : startswith ([] ++ [x; y] ++ rest) [x; y] = true)
      by (apply startswith_iff; exists rest; reflexivity).
    rewrite S0. reflexivity.
  - rewrite find0_eq in Hn.
    destruct (startswith (c :: p) [x; y]) eqn:S1; [discriminate|].
    destruct (find0 p [x; y]) eqn:F; [discriminate|].
    rewrite find0_eq.
    destruct (startswith ((c :: p) ++ [x; y] ++ rest) [x; y]) eqn:S2.
    + exfalso. apply startswith_iff in S2 as [t Et].
      destruct p as [|c' p'].
      * simpl in Et. inversion Et; subst. congruence.
      * simpl in Et. inversion Et; subst.
        assert (X : startswith (x :: y :: p') [x; y] = true)
          by (apply startswith_iff; exists p'; reflexivity).
        congruence.
    + change ((c :: p) ++ [x; y] ++ rest) with (c :: (p ++ [x; y] ++ rest)).
      cbv iota. rewrite (IH eq_refl). reflexivity.
Qed.

Lemma find0_first_open pre rest :
  find0 pre (py "/*") = None ->
  find0 (pre ++ py "/*" ++ rest) (py "/*") = Some (length pre).
Proof.
  apply (find0_first_marker (Ascii.ascii_of_nat 47) (Ascii.ascii_of_nat 42)).
  discriminate.
Qed.

Lemma find0_first_close pre rest :
  find0 pre (py "*/") = None ->
  find0 (pre ++ py "*/" ++ rest) (py "*/") = Some (length pre).
Proof.
  apply (find0_first_marker (Ascii.ascii_of_nat 42) (Ascii.ascii_of_nat 47)).
  discriminate.
Qed.

(** A line that opens a block comment it does not close. *)
Lemma comment_pass_opens pre rest :
  find0 pre (py "/*") = None ->
  find0 rest (py "*/") = None ->
  comment_pass false (pre ++ py "/*" ++ rest) = (None, true).
Proof.
  intros Hp Hr. unfold comment_pass, block_comment_continuation, strip_inline.
  rewrite strip_inline_fuel_S, find_zero.
  rewrite (find0_first_open pre rest Hp).
  unfold find.
  assert (L : (length pre + 2 <=? length (pre ++ py "/*" ++ rest)) = true).
  { apply Nat.leb_le. rewrite !length_app. simpl. lia. }
  rewrite L, (skipn_past pre (py "/*") rest) by reflexivity.
  rewrite Hr. reflexivity.
Qed.

(** Inside a block comment, a line without the close marker is passed
    over. *)
Lemma step_inside_comment st l :
  in_block_comment st = true ->
  find0 l (py "*/") = None ->
  step st l = (None, st).
Proof.
  intros Hi Hl. destruct st as [d b i]. cbn [in_block_comment] in Hi. subst i.
  unfold step, comment_pass, block_comment_continuation.
  cbn [in_block_comment]. rewrite find_zero, Hl. reflexivity.
Qed.

Lemma run_inside_comment lines : forall st,
  in_block_comment st = true ->
  Forall (fun l => find0 l (py "*/") = None) lines ->
  run st lines = ([], st).
Proof.
  induction lines as [|l rest IH]; intros st Hi Hl; [reflexivity|].
  inversion Hl; subst. simpl. rewrite (step_inside_comment st l Hi H1).
  rewrite (IH st Hi H2). reflexivity.
Qed.

(** The line that closes a block comment is handled as what follows the
    close marker. *)
Lemma step_closes_comment d b c post :
  find0 c (py "*/") = None ->
  step (mkState d b true) (c ++ py "*/" ++ post)
  = step (mkState d b false) post.
Proof.
  intros Hc. unfold step, comment_pass, block_comment_continuation.
  cbn [in_block_comment]. rewrite find_zero.
  rewrite (find0_first_close c post Hc).
  rewrite (skipn_past c (py "*/") post) by reflexivity.
  reflexivity.
Qed.

(** X5. Outside any open comment, take a line whose first [/*] has no
    [*/] after it on the line, then lines without [*/], then a line with
    [*/].  The block contributes nothing, and takes with it the text that
    stands before the [/*] on the opening line: the stream yields what it
    would yield with the text [post] after the first [*/] of the closing
    line in the place of all these lines. *)
Theorem multiline_comment_dropped d b pre r0 mid c post tl :
  find0 pre (py "/*") = None ->
  find0 r0 (py "*/") = None ->
  Forall (fun l => find0 l (py "*/") = None) mid ->
  find0 c (py "*/") = None ->
  stream_from (mkState d b false)
    ((pre ++ py "/*" ++ r0) :: mid ++ (c ++ py "*/" ++ post) :: tl)
  = stream_from (mkState d b false) (post :: tl).
Proof.
  intros Hp Hr Hm Hc.
  rewrite stream_from_cons.
  assert (S1 : step (mkState d b false) (pre ++ py "/*" ++ r0)
               = (None, mkState d b true)).
  { unfold step. cbn [in_block_comment].
    rewrite (comment_pass_opens pre r0 Hp Hr). reflexivity. }
  rewrite S1. cbn [fst snd opt_list app].
  rewrite stream_from_app, (run_inside_comment mid (mkState d b true) eq_refl Hm).
  cbn [fst snd app].
  rewrite !stream_from_cons, (step_closes_comment d b c post Hc).
  reflexivity.
Qed.

Lemma multiline_comment_dropped_witness :
  stream_from (mkState (py ";") [] false)
    ((py "INSERT 1; " ++ py "/*" ++ py " note") :: [py "more"]
       ++ (py "end " ++ py "*/" ++ py " INSERT 2;") :: [py "INSERT 3;"])
  = stream_from (mkState (py ";") [] false) (py " INSERT 2;" :: [py "INSERT 3;"]).
Proof.
  apply (multiline_comment_dropped (py ";") [] (py "INSERT 1; ") (py " note")
           [py "more"] (py "end ") (py " INSERT 2;") [py "INSERT 3;"]).
  - reflexivity.
  - reflexivity.
  - apply Forall_cons; [reflexivity | apply Forall_nil].
  - reflexivity.
Defined.

(** X6. Outside any open comment, when the first [/*] of a line has no
    [*/] after it on the line and no later line holds [*/], the comment
    swallows the rest of the stream: from that line on nothing more is
    yielded but the final flush of what the buffer already held. *)
Theorem unclosed_comment_swallows d b pre r0 rest :
  find0 pre (py "/*") = None ->
  find0 r0 (py "*/") = None ->
  Forall (fun l => find0 l (py "*/") = None) rest ->
  stream_from (mkState d b false) ((pre ++ py "/*" ++ r0) :: rest)
  = flush_tail (mkState d b false).
Proof.
  intros Hp Hr Hm. rewrite stream_from_cons.
  assert (S1 : step (mkState d b false) (pre ++ py "/*" ++ r0)
               = (None, mkState d b true)).
  { unfold step. cbn [in_block_comment].
    rewrite (comment_pass_opens pre r0 Hp Hr). reflexivity. }
  rewrite S1. cbn [fst snd opt_list app].
  unfold stream_from. rewrite (run_inside_comment rest (mkState d b true) eq_refl Hm).
  reflexivity.
Qed.

Lemma unclosed_comment_swallows_witness :
  stream_from (mkState (py ";") [] false)
    ((py "" ++ py "/*" ++ py " header") :: [py "INSERT 1;"; py "INSERT 2;"])
  = flush_tail (mkState (py ";") [] false).
Proof.
  apply (unclosed_comment_swallows (py ";") [] (py "") (py " header")
           [py "INSERT 1;"; py "INSERT 2;"]).
  - reflexivity.
  - reflexivity.
  - repeat (apply Forall_cons; [reflexivity|]). apply Forall_nil.
Defined.

(** X7. Outside a block comment, take a line that holds no [/*] and is
    made of whitespace, the keyword DELIMITER in any letter case followed
    by a space character ([kw], the space included), whitespace, a
    non-empty trimmed delimiter [d], and whitespace, each whitespace
    possibly empty.  The line sets the active delimiter to [d]; what the
    buffer held is flushed and the buffer is left empty. *)
Theorem directive_sets_delimiter st w1 kw w2 d w3 :
  in_block_comment st = false ->
  blank w1 = true -> blank w2 = true -> blank w3 = true ->
  upper kw = py "DELIMITER " ->
  d <> [] -> strip d = d ->
  find0 (w1 ++ kw ++ w2 ++ d ++ w3) (py "/*") = None ->
  step st (w1 ++ kw ++ w2 ++ d ++ w3)
  = (flush_partial (buf st), mkState d [] false).
Proof.
  intros Hi B1 B2 B3 Hk Hd Hs Hc.
  assert (Lk : length kw = 10).
  { rewrite <- (upper_length kw), Hk. reflexivity. }
  destruct kw as [|k0 kw']; [discriminate Lk|].
  assert (Hk0 : isspace k0 = false).
  { apply upper_char_nonspace. unfold upper in Hk. simpl in Hk.
    inversion Hk as [[E0 E1]]. rewrite E0. reflexivity. }
  destruct (exists_last Hd) as [d' [dl Ed]].
  assert (Hdl : isspace dl = false).
  { apply (strip_last d d'). rewrite Hs. exact Ed. }
  set (X := (k0 :: kw') ++ w2 ++ d).
  assert (EX : w1 ++ (k0 :: kw') ++ w2 ++ d ++ w3 = w1 ++ X ++ w3).
  { unfold X. rewrite <- !app_assoc. reflexivity. }
  assert (SX : strip X = X).
  { apply strip_fixed.
    - intros c t E. unfold X in E. simpl in E. inversion E; subst. exact Hk0.
    - intros t c E. unfold X in E. rewrite Ed in E.
      rewrite !app_assoc in E. apply app_inj_tail in E as [_ E]. subst c.
      exact Hdl. }
  assert (SL : strip (w1 ++ X ++ w3) = X).
  { rewrite strip_app_blank_l by exact B1.
    rewrite strip_app_blank_r by exact B3. exact SX. }
  assert (U : startswith (upper X) (py "DELIMITER ") = true).
  { apply startswith_iff. exists (upper (w2 ++ d)).
    unfold X, upper. rewrite map_app. fold (upper (k0 :: kw')).
    rewrite Hk. reflexivity. }
  assert (K : strip (skipn (length delim_token) X) = d).
  { unfold X. change (length delim_token) with 10. rewrite <- Lk.
    rewrite skipn_exact, strip_app_blank_l by exact B2. exact Hs. }
  rewrite EX in Hc |- *.
  destruct st as [sd sb si]. cbn [in_block_comment] in Hi. subst si.
  unfold step. cbn [in_block_comment current_delim buf].
  rewrite (comment_pass_plain _ Hc), SL.
  assert (T : truthy X = true) by reflexivity.
  rewrite T. cbn [negb]. rewrite U, K. reflexivity.
Qed.

Lemma directive_sets_delimiter_witness :
  step (mkState (py ";") [py "SELECT 1"] false)
       (py "  " ++ py "Delimiter " ++ py "  " ++ py "$$" ++ py " ")
  = (flush_partial [py "SELECT 1"], mkState (py "$$") [] false).
Proof.
  apply (directive_sets_delimiter (mkState (py ";") [py "SELECT 1"] false)
           (py "  ") (py "Delimiter ") (py "  ") (py "$$") (py " "));
    try reflexivity.
  discriminate.
Defined.

Lemma startswith_firstn s p n :
  startswith (firstn n s) p = true -> startswith s p = true.
Proof.
  intros H. apply startswith_iff in H as [t E]. apply startswith_iff.
  exists (t ++ skipn n s). rewrite app_assoc, <- E. symmetry.
  apply firstn_skipn.
Qed.

Lemma find0_firstn_none s sub : sub <> [] -> forall i,
  find0 s sub = Some i -> find0 (firstn i s) sub = None.
Proof.
  intros Hsub. induction s as [|c t IH]; intros i; rewrite find0_eq.
  - destruct (startswith [] sub) eqn:E.
    + destruct sub; [congruence | discriminate E].
    + discriminate.
  - destruct (startswith (c :: t) sub) eqn:E.
    + intros H; inversion H; subst. simpl firstn. rewrite find0_eq.
      destruct sub; [congruence | reflexivity].
    + destruct (find0 t sub) as [j|] eqn:F; [|discriminate].
      simpl. intros H; inversion H; subst. simpl firstn. rewrite find0_eq.
      destruct (startswith (c :: firstn j t) sub) eqn:E2.
      * apply (startswith_firstn (c :: t) sub (S j)) in E2. congruence.
      * rewrite (IH j eq_refl). reflexivity.
Qed.

(** One turn of the loop on a line whose first block comment closes on
    the line: the span is cut out and the loop goes on with the rest. *)
Lemma strip_inline_first_span pre body post :
  find0 pre (py "/*") = None ->
  find0 body (py "*/") = None ->
  strip_inline (pre ++ py "/*" ++ body ++ py "*/" ++ post)
  = strip_inline (pre ++ post).
Proof.
  intros Hp Hb.
  set (line := pre ++ py "/*" ++ body ++ py "*/" ++ post).
  unfold strip_inline at 1. rewrite strip_inline_fuel_S, find_zero.
  unfold line at 1. rewrite (find0_first_open pre _ Hp).
  assert (Ll : length line = length pre + 2 + length body + 2 + length post).
  { unfold line. rewrite !length_app. simpl. lia. }
  unfold find.
  assert (L : (length pre + 2 <=? length line) = true)
    by (apply Nat.leb_le; lia).
  rewrite L. unfold line at 1.
  rewrite (skipn_past pre (py "/*") (body ++ py "*/" ++ post)) by reflexivity.
  rewrite (find0_first_close body post Hb). cbn [option_map].
  assert (F : firstn (length pre) line = pre) by apply firstn_exact.
  assert (K : skipn (length pre + 2 + length body + 2) line = post).
  { unfold line.
    replace (pre ++ py "/*" ++ body ++ py "*/" ++ post)
      with ((pre ++ py "/*" ++ body ++ py "*/") ++ post)
      by (rewrite <- !app_assoc; reflexivity).
    replace (length pre + 2 + length body + 2)
      with (length (pre ++ py "/*" ++ body ++ py "*/"))
      by (rewrite !length_app; simpl; lia).
    apply skipn_exact. }
  rewrite F, K. apply strip_inline_fuel_enough.
  rewrite Ll, length_app. lia.
Qed.

(** X8. Outside any open comment, the first block comment of a line (no
    [/*] stands before its opening marker), when it closes on the line, is
    cut out before anything else is looked at: the line is handled exactly
    as the text before the comment joined to the text after its closing
    marker (the first [*/] that begins after the opening marker), with
    nothing put in the place of the comment. *)
Theorem inline_comment_cut_out st pre body post :
  in_block_comment st = false ->
  find0 pre (py "/*") = None ->
  find0 body (py "*/") = None ->
  step st (pre ++ py "/*" ++ body ++ py "*/" ++ post) = step st (pre ++ post).
Proof.
  intros Hi Hp Hb. destruct st as [d b i]. cbn [in_block_comment] in Hi.
  subst i. unfold step, comment_pass, block_comment_continuation.
  cbn [in_block_comment].
  rewrite (strip_inline_first_span pre body post Hp Hb). reflexivity.
Qed.

Lemma inline_comment_cut_out_witness :
  step initial_state
    (py "INSERT" ++ py "/*" ++ py " note " ++ py "*/" ++ py "INTO t;")
  = step initial_state (py "INSERT" ++ py "INTO t;").
Proof.
  apply (inline_comment_cut_out initial_state (py "INSERT") (py " note ")
           (py "INTO t;")); reflexivity.
Defined.

(** X9. The loop that removes inline block comments (lines 75-84) ends:
    its result does not depend on the turns it is given beyond the length
    of the line, the line it leaves is never longer than the line it took
    and has no opening marker [/*] left, whether it ended by exhausting
    the markers or by entering a block comment. *)
Theorem inline_comment_loop_ends line :
  (forall fuel, length line < fuel ->
     strip_inline_fuel fuel line = strip_inline line)
  /\ find0 (fst (strip_inline line)) (py "/*") = None
  /\ length (fst (strip_inline line)) <= length line.
Proof.
  split; [intros fuel; apply strip_inline_fuel_enough|].
  unfold strip_inline.
  assert (G : forall f x, length x < f ->
    find0 (fst (strip_inline_fuel f x)) (py "/*") = None
    /\ length (fst (strip_inline_fuel f x)) <= length x).
  { induction f as [|f IH]; intros x Hx; [lia|].
    rewrite strip_inline_fuel_S.
    destruct (find x (py "/*") 0) as [start|] eqn:F1.
    - destruct (find x (py "*/") (start + 2)) as [e|] eqn:F2.
      + pose proof (span_removed_shorter _ _ _ F2) as Hlen.
        destruct (IH (firstn start x ++ skipn (e + 2) x)) as [I1 I2]; [lia|].
        split; [exact I1 | lia].
      + cbn [fst]. rewrite find_zero in F1. split.
        * apply find0_firstn_none; [discriminate | exact F1].
        * rewrite length_firstn. lia.
    - cbn [fst]. rewrite find_zero in F1. split; [exact F1 | lia]. }
  apply G. lia.
Qed.

(** ** No opening marker in a Statement *)

Lemma find0_none_iff s sub :
  find0 s sub = None <-> (forall a b, s <> a ++ sub ++ b).
Proof.
  split; [apply find0_none|].
  intros H. destruct (find0 s sub) as [i|] eqn:F; [|reflexivity].
  destruct (find0_some _ _ _ F) as [a [b [E _]]]. elim (H a b E).
Qed.

Lemma find0_none_inside x t y sub :
  find0 (x ++ t ++ y) sub = None -> find0 t sub = None.
Proof.
  rewrite !find0_none_iff. intros H a b E. apply (H (x ++ a) (b ++ y)).
  rewrite E, <- !app_assoc. reflexivity.
Qed.

Lemma find0_none_strip s sub : find0 s sub = None -> find0 (strip s) sub = None.
Proof.
  intros H. destruct (strip_split s) as [w1 [w2 [E _]]].
  rewrite E in H. eapply find0_none_inside; eauto.
Qed.

Lemma find0_none_rstrip s sub : find0 s sub = None -> find0 (rstrip s) sub = None.
Proof.
  intros H. destruct (rstrip_split s) as [ws [E _]].
  rewrite E in H. apply (find0_none_inside [] (rstrip s) ws). exact H.
Qed.

Lemma find0_none_slice s n sub :
  sub <> [] -> find0 s sub = None -> find0 (slice_to_neg s n) sub = None.
Proof.
  intros Hsub H. unfold slice_to_neg. destruct n.
  - rewrite find0_eq. destruct sub; [congruence | reflexivity].
  - rewrite <- (firstn_skipn (length s - S n) s) in H.
    apply (find0_none_inside [] _ (skipn (length s - S n) s)). exact H.
Qed.

(** Text without the opening marker, joined after text without it that is
    empty or ends with whitespace, has none. *)
Lemma find0_none_app_open a b :
  find0 a (py "/*") = None -> find0 b (py "/*") = None ->
  (a = [] \/ exists t c, a = t ++ [c] /\ isspace c = true) ->
  find0 (a ++ b) (py "/*") = None.
Proof.
  intros Ha Hb He. destruct He as [-> | [t [c [Ea Hc]]]]; [exact Hb|].
  rewrite find0_none_iff in *. intros p q E.
  apply app_eq_app in E as [l [[E1 E2]|[E1 E2]]].
  - destruct l as [|l0 l].
    + simpl in E2. apply (Hb [] q). symmetry. exact E2.
    + destruct l as [|l1 l].
      * simpl in E2. inversion E2; subst l0.
        rewrite Ea in E1. apply app_inj_tail in E1 as [_ E1]. subst c.
        discriminate Hc.
      * simpl in E2. inversion E2; subst.
        apply (Ha p l). exact E1.
  - apply (Hb l q). exact E2.
Qed.

Lemma comment_pass_no_opener inside raw line inside' :
  comment_pass inside raw = (Some line, inside') ->
  find0 line (py "/*") = None.
Proof.
  unfold comment_pass.
  destruct (block_comment_continuation inside raw) as [line0|]; [|discriminate].
  destruct (strip_inline line0) as [l o] eqn:S.
  destruct o; [discriminate|]. intros H; inversion H; subst.
  eapply strip_inline_closed; eauto.
Qed.

Section NoOpener.

Variable brk : ascii -> bool.
Hypothesis brk_space : forall c, brk c = true -> isspace c = true.

Lemma join_no_opener (b : list str) :
  Forall (fun l => strip l <> [] /\ ends_with_break brk l) b ->
  Forall (fun l => find0 l (py "/*") = None) b ->
  find0 (join b) (py "/*") = None
  /\ (join b = [] \/ exists t c, join b = t ++ [c] /\ isspace c = true).
Proof.
  induction b as [|l b IH] using rev_ind; intros H1 H2.
  - split; [reflexivity | left; reflexivity].
  - apply Forall_app in H1 as [H1 H1'], H2 as [H2 H2'].
    inversion H1' as [|? ? [_ [t [c [El Hc]]]] _]; subst.
    inversion H2'; subst.
    destruct (IH H1 H2) as [I1 I2]. rewrite join_snoc. split.
    + apply find0_none_app_open; assumption.
    + right. exists (join b ++ t), c. split;
        [rewrite app_assoc; reflexivity | apply brk_space; exact Hc].
Qed.

Lemma step_no_opener st raw :
  stream_invariant brk st ->
  Forall (fun l => find0 l (py "/*") = None) (buf st) ->
  (forall s, fst (step st raw) = Some s -> find0 s (py "/*") = None)
  /\ find0 (join (buf (snd (step st raw)))) (py "/*") = None
  /\ (forall l, In l (buf (snd (step st raw))) -> find0 l (py "/*") = None).
Proof.
  intros [Hi Hd] Hn.
  destruct (join_no_opener (buf st) Hi Hn) as [J1 J2].
  assert (Hin : forall l, In l (buf st) -> find0 l (py "/*") = None).
  { apply Forall_forall. exact Hn. }
  unfold step.
  destruct (comment_pass (in_block_comment st) raw) as [[line|] inside] eqn:C.
  2:{ cbn [fst snd buf]. repeat split; [discriminate | exact J1 | exact Hin]. }
  pose proof (comment_pass_no_opener _ _ _ _ C) as Hl.
  destruct (negb (truthy (strip line))).
  { cbn [fst snd buf]. repeat split; [discriminate | exact J1 | exact Hin]. }
  destruct (startswith (upper (strip line)) (py "DELIMITER ")).
  { cbn [fst snd buf]. split; [|split; [reflexivity | intros l []]].
    intros s. unfold flush_partial. destruct (truthy (buf st)); [|discriminate].
    destruct (truthy (strip (join (buf st)))); [|discriminate].
    intros H; inversion H; subst. apply find0_none_strip. exact J1. }
  destruct (startswith (strip line) (py "--") || startswith (strip line) (py "#")).
  { cbn [fst snd buf]. repeat split; [discriminate | exact J1 | exact Hin]. }
  assert (J : find0 (join (buf st ++ [line])) (py "/*") = None).
  { rewrite join_snoc. apply find0_none_app_open; assumption. }
  destruct (truthy (current_delim st) && _); cbn [fst snd buf].
  - split; [|split; [reflexivity | intros l []]].
    intros s.
    match goal with |- context [truthy ?x] => destruct (truthy x) end;
      [|discriminate].
    intros H; inversion H; subst.
    apply find0_none_strip, find0_none_slice; [discriminate|].
    apply find0_none_rstrip. exact J.
  - split; [discriminate|]. split; [exact J|].
    intros l Hl'. apply in_app_or in Hl' as [Hl'|[<-|[]]]; auto.
Qed.

Lemma run_no_opener lines : forall st,
  Forall (terminated_line brk) lines ->
  stream_invariant brk st ->
  Forall (fun l => find0 l (py "/*") = None) (buf st) ->
  Forall (fun s => find0 s (py "/*") = None) (fst (run st lines))
  /\ stream_invariant brk (snd (run st lines))
  /\ Forall (fun l => find0 l (py "/*") = None) (buf (snd (run st lines))).
Proof.
  induction lines as [|l rest IH]; intros st Hl Hi Hn.
  - simpl. repeat split; [constructor | apply Hi | apply Hi | exact Hn].
  - inversion Hl; subst. simpl.
    destruct (step_no_opener st l Hi Hn) as (S1 & _ & S3).
    pose proof (step_stream_invariant brk brk_space st l H1 Hi) as Hi1.
    destruct (step st l) as [o st1]. cbn [fst snd] in *.
    assert (Hn1 : Forall (fun l => find0 l (py "/*") = None) (buf st1))
      by (apply Forall_forall; exact S3).
    destruct (IH st1 H2 Hi1 Hn1) as (R1 & R2 & R3).
    destruct (run st1 rest) as [out st2]. cbn [fst snd] in *.
    split; [|split; assumption].
    apply Forall_app. split; [|exact R1].
    destruct o as [s|]; simpl; constructor; [apply S1; reflexivity|constructor].
Qed.

Lemma last_step_no_opener st raw :
  stream_invariant brk st ->
  Forall (fun l => find0 l (py "/*") = None) (buf st) ->
  Forall (fun s => find0 s (py "/*") = None) (stream_from st [raw]).
Proof.
  intros Hi Hn. rewrite stream_from_cons.
  destruct (step_no_opener st raw Hi Hn) as (S1 & S2 & _).
  destruct (step st raw) as [o st1]. cbn [fst snd] in *.
  apply Forall_app. split.
  - destruct o as [s|]; simpl; constructor; [apply S1; reflexivity|constructor].
  - unfold stream_from. simpl. unfold flush_tail.
    destruct (truthy (strip (join (buf st1)))); constructor; [|constructor].
    apply find0_none_strip. exact S2.
Qed.

End NoOpener.

(** X10. No Statement yielded from a text stream, in either way of cutting
    the text into lines, contains the opening marker [/*] of a block
    comment. *)
Theorem no_opener_in_statements m text :
  Forall (fun s => find0 s (py "/*") = None)
         (_sql_statement_stream (text_lines m text)).
Proof.
  unfold _sql_statement_stream.
  destruct (text_lines m text) as [|l0 ls] eqn:E; [constructor|].
  destruct (exists_last (l := l0 :: ls)) as [pre [raw Ep]]; [discriminate|].
  rewrite Ep in E |- *.
  pose proof (text_lines_terminated m text pre raw [] E) as Ht.
  destruct (run_no_opener (line_break m) (line_break_space m) pre initial_state Ht)
    as (R1 & R2 & R3).
  { apply initial_stream_invariant, line_break_space. }
  { constructor. }
  rewrite stream_from_app. apply Forall_app. split; [exact R1|].
  apply (last_step_no_opener (line_break m) (line_break_space m)); assumption.
Qed.

(** ** The statement count of a dump *)




















(** ** Of the loader *)

Lemma readlines_universal_plain text :
  no_lone_cr text = true -> readlines_universal text = readlines text.
Proof.
  assert (G : forall n t, length t <= n -> no_lone_cr t = true ->
              readlines_universal t = readlines t).
  { induction n as [|n IH]; intros [|c t] Hn Hc; try reflexivity;
      simpl in Hn; [lia|].
    assert (Ht : length t <= n) by lia.
    cbn [no_lone_cr] in Hc. cbn [readlines_universal readlines].
    destruct (Ascii.eqb c LF) eqn:El.
    - assert (Ec : Ascii.eqb c CR = false).
      { apply Ascii.eqb_eq in El. subst c. reflexivity. }
      rewrite Ec in Hc. rewrite (IH t Ht Hc). reflexivity.
    - destruct (Ascii.eqb c CR) eqn:Ec.
      + destruct t as [|d t']; [discriminate|].
        apply andb_true_iff in Hc as [Hd Hc]. rewrite Hd.
        cbn [readlines]. rewrite Hd.
        assert (Hc' : no_lone_cr t' = true).
        { cbn [no_lone_cr] in Hc. apply Ascii.eqb_eq in Hd. subst d.
          exact Hc. }
        rewrite (IH t'); [reflexivity | simpl in Ht; lia | exact Hc'].
      + rewrite (IH t Ht Hc). reflexivity. }
  apply (G (length text)). lia.
Qed.

(** X11. When every CR of a text is followed by LF, a stream opened with
    [newline=""] (a file, a gzipped URL) delivers the same lines as
    [io.StringIO] (an inline text, a plain URL): the Statements of the text
    do not depend on the kind of origin. *)
Theorem lines_independent_of_origin m text :
  no_lone_cr text = true ->
  text_lines m text = readlines text
  /\ _sql_statement_stream (text_lines m text)
     = _sql_statement_stream (readlines text).
Proof.
  intros Hc.
  assert (E : text_lines m text = readlines text).
  { unfold text_lines. destruct m;
      [reflexivity | apply readlines_universal_plain; exact Hc]. }
  rewrite E. split; reflexivity.
Qed.

Lemma lines_independent_of_origin_witness :
  text_lines NewlineUniversal (py "A;" ++ [CR; LF] ++ py "B;" ++ [LF])
  = readlines (py "A;" ++ [CR; LF] ++ py "B;" ++ [LF])
  /\ _sql_statement_stream
       (text_lines NewlineUniversal (py "A;" ++ [CR; LF] ++ py "B;" ++ [LF]))
     = _sql_statement_stream (readlines (py "A;" ++ [CR; LF] ++ py "B;" ++ [LF])).
Proof.
  apply (lines_independent_of_origin NewlineUniversal
           (py "A;" ++ [CR; LF] ++ py "B;" ++ [LF])).
  reflexivity.
Defined.


(** ** Of the driver, in every world *)

Lemma periodic_commit_raised w M n s e :
  (Z.of_nat (batch s) >=? M)%Z = true ->
  respond w (BatchCommit n) = Some e ->
  periodic_commit w M n s
  = (mkDriver (trace s ++ [(BatchCommit n, Some e)]) (console s)
              (applied s) (failed s) (batch s), Raise e).
Proof.
  intros H R. unfold periodic_commit, bind, get. rewrite H.
  rewrite (invoke_raises _ _ _ _ R). reflexivity.
Qed.

Section DriverInvariant.

Variable w : world.
Variable M : Z.
Variable stop : bool.
Variable I : driver_state -> Prop.

Hypothesis I_execute :
  forall n stmt s, I s -> I (fst (execute_statement w stop n stmt s)).
Hypothesis I_reset :
  forall s, I s ->
    I (mkDriver (trace s) (console s) (applied s) (failed s) 0).

Lemma periodic_commit_keeps n s :
  (forall s0, I s0 -> I (fst (invoke w (BatchCommit n) s0))) ->
  I s -> I (fst (periodic_commit w M n s)).
Proof.
  intros Hc Hs. unfold periodic_commit, bind, get.
  destruct (Z.of_nat (batch s) >=? M)%Z; [|exact Hs].
  pose proof (Hc s Hs) as H1.
  destruct (invoke w (BatchCommit n) s) as [s1 [u|e]]; cbn [fst] in *.
  - unfold modify. cbn [fst]. apply I_reset. exact H1.
  - exact H1.
Qed.

Lemma for_statements_keeps :
  (forall n s0, I s0 -> I (fst (invoke w (BatchCommit n) s0))) ->
  forall stmts n s, I s -> I (fst (for_statements w M stop n stmts s)).
Proof.
  intros Hc. induction stmts as [|stmt rest IH]; intros n s Hs; [exact Hs|].
  rewrite for_statements_cons.
  pose proof (I_execute n stmt s Hs) as H1.
  destruct (execute_statement w stop n stmt s) as [s1 [u|e]]; cbn [fst] in *;
    [|exact H1].
  pose proof (periodic_commit_keeps n s1 (Hc n) H1) as H2.
  destruct (periodic_commit w M n s1) as [s2 [u2|e]]; cbn [fst] in *;
    [|exact H2].
  apply IH. exact H2.
Qed.

Lemma try_body_keeps it :
  (forall n s0, I s0 -> I (fst (invoke w (BatchCommit n) s0))) ->
  (forall s0, I s0 -> I (fst (invoke w FinalCommit s0))) ->
  forall s, I s -> I (fst (try_body w M stop it s)).
Proof.
  intros Hc Hf s Hs. unfold try_body, bind.
  pose proof (for_statements_keeps Hc (fst it) 0 s Hs) as H1.
  destruct (for_statements w M stop 0 (fst it) s) as [s1 [u|e]];
    cbn [fst] in *; [|exact H1].
  destruct (snd it); [exact H1|]. unfold get.
  destruct (0 <? batch s1); [apply Hf; exact H1 | exact H1].
Qed.

Hypothesis I_call :
  forall c s, is_execute c = false -> I s -> I (fst (invoke w c s)).

Lemma cleanup_keeps s : I s -> I (fst (cleanup w s)).
Proof.
  intros Hs. unfold cleanup, bind, try_except, ret.
  pose proof (I_call FkOn s eq_refl Hs) as H1.
  destruct (invoke w FkOn s) as [s1 [u|e]]; cbn [fst] in *.
  - pose proof (I_call FkOnCommit s1 eq_refl H1) as H2.
    destruct (invoke w FkOnCommit s1) as [s2 [u2|e2]]; cbn [fst] in *;
      (pose proof (I_call CursorClose s2 eq_refl H2) as H3;
       destruct (invoke w CursorClose s2) as [s3 [u3|e3]]; cbn [fst] in *;
       [|exact H3];
       pose proof (I_call ConnClose s3 eq_refl H3) as H4;
       destruct (invoke w ConnClose s3) as [s4 [u4|e4]]; cbn [fst] in *;
       [|exact H4];
       apply (I_call StreamClose s4 eq_refl H4)).
  - pose proof (I_call CursorClose s1 eq_refl H1) as H3.
    destruct (invoke w CursorClose s1) as [s3 [u3|e3]]; cbn [fst] in *;
      [|exact H3].
    pose proof (I_call ConnClose s3 eq_refl H3) as H4.
    destruct (invoke w ConnClose s3) as [s4 [u4|e4]]; cbn [fst] in *;
      [|exact H4].
    apply (I_call StreamClose s4 eq_refl H4).
Qed.

(** The run as a whole: the state it ends in satisfies the invariant when
    it raises, and is a state that satisfies it, with the summary of its
    counters printed after, when it returns. *)
Lemma migrate_keeps :
  I initial_driver ->
  match migrate_sql_to_mysql w M stop with
  | (s, Raise _) => I s
  | (s, Ret _) =>
      exists s0, I s0
        /\ s = mkDriver (trace s0)
                        (console s0 ++ [Summary (applied s0) (failed s0)])
                        (applied s0) (failed s0) (batch s0)
  end.
Proof.
  intros H0. unfold migrate_sql_to_mysql, migrate_body, bind.
  pose proof (I_call Connect _ eq_refl H0) as H1.
  destruct (invoke w Connect initial_driver) as [s1 [u|e]]; cbn [fst] in *;
    [|exact H1].
  pose proof (I_call OpenCursor _ eq_refl H1) as H2.
  destruct (invoke w OpenCursor s1) as [s2 [u2|e]]; cbn [fst] in *;
    [|exact H2].
  pose proof (I_call FkOff _ eq_refl H2) as H3.
  destruct (invoke w FkOff s2) as [s3 [u3|e]]; cbn [fst] in *; [|exact H3].
  pose proof (I_call FkOffCommit _ eq_refl H3) as H4.
  destruct (invoke w FkOffCommit s3) as [s4 [u4|e]]; cbn [fst] in *;
    [|exact H4].
  pose proof (I_call OpenSource _ eq_refl H4) as H5.
  destruct (invoke w OpenSource s4) as [s5 [u5|e]]; cbn [fst] in *;
    [|exact H5].
  unfold try_finally.
  pose proof (try_body_keeps (stmt_iter w)
                (fun n s0 => I_call (BatchCommit n) s0 eq_refl)
                (fun s0 => I_call FinalCommit s0 eq_refl) s5 H5) as H6.
  destruct (try_body w M stop (stmt_iter w) s5) as [s6 r]. cbn [fst] in H6.
  pose proof (cleanup_keeps s6 H6) as H7.
  destruct (cleanup w s6) as [s7 [u7|e7]]; cbn [fst] in H7; [|exact H7].
  destruct r as [ur|er]; [|exact H7].
  unfold get, print, modify. exists s7. split; [exact H7 | reflexivity].
Qed.

End DriverInvariant.

Lemma executed_ok_app a b : executed_ok (a ++ b) = executed_ok a ++ executed_ok b.
Proof. apply flat_map_app. Qed.

Lemma refused_app a b : refused (a ++ b) = refused a + refused b.
Proof. unfold refused. rewrite filter_app, length_app. reflexivity. Qed.

Lemma reports_app a b : reports (a ++ b) = reports a + reports b.
Proof. unfold reports. rewrite filter_app, length_app. reflexivity. Qed.

Lemma refused_other c r : is_execute c = false -> refused [(c, r)] = 0.
Proof. destruct c; try discriminate; reflexivity. Qed.

Lemma executed_ok_other c r : is_execute c = false -> executed_ok [(c, r)] = [].
Proof. destruct c; try discriminate; reflexivity. Qed.

Lemma attempted_other c r : is_execute c = false -> attempted [(c, r)] = [].
Proof. destruct c; try discriminate; reflexivity. Qed.

Lemma counters_agree_call w c s :
  is_execute c = false -> counters_agree s ->
  counters_agree (fst (invoke w c s)).
Proof.
  intros Hc (A & F & R). unfold invoke, counters_agree.
  cbn [fst trace console applied failed].
  rewrite executed_ok_app, refused_app, length_app.
  rewrite (refused_other _ _ Hc), (executed_ok_other _ _ Hc). simpl.
  repeat split; lia.
Qed.

Lemma counters_agree_execute w stop n stmt s :
  counters_agree s ->
  counters_agree (fst (execute_statement w stop n stmt s)).
Proof.
  intros (A & F & R).
  destruct (respond w (Execute n stmt)) as [[|]|] eqn:E.
  - rewrite (execute_statement_failed _ _ _ _ _ E). unfold counters_agree.
    cbn [fst trace console applied failed].
    rewrite executed_ok_app, refused_app, reports_app, length_app.
    change (refused [(Execute n stmt, Some MysqlError)]) with 1.
    change (reports [ErrorReport (failed s + 1) (applied s + (failed s + 1))
                       (firstn 1000 stmt)]) with 1.
    simpl. repeat split; lia.
  - rewrite (execute_statement_crashed _ _ _ _ _ E). unfold counters_agree.
    cbn [fst trace console applied failed].
    rewrite executed_ok_app, refused_app, length_app.
    change (refused [(Execute n stmt, Some OtherError)]) with 0.
    simpl. repeat split; lia.
  - rewrite (execute_statement_applied _ _ _ _ _ E). unfold counters_agree.
    cbn [fst trace console applied failed].
    rewrite executed_ok_app, refused_app, length_app.
    change (refused [(Execute n stmt, None)]) with 0.
    simpl. repeat split; lia.
Qed.

Lemma attempted_covers tr :
  length (executed_ok tr) + refused tr <= length (attempted tr).
Proof.
  induction tr as [|[c r] tr IH]; [unfold refused; simpl; lia|].
  change ((c, r) :: tr) with ([(c, r)] ++ tr).
  rewrite executed_ok_app, refused_app, attempted_app, !length_app.
  destruct c; destruct r as [[|]|]; unfold refused at 1; simpl; lia.
Qed.

(** X12. In every run, however it ends and whatever fails, the counters
    agree with what happened: [applied] is the number of statements whose
    [cur.execute] returned, [failed] the number it refused with
    [mysql.Error], which is the number of error reports printed; together
    they never exceed the statements attempted; and a run that returns
    prints these two numbers as its summary. *)
Theorem counters_match_trace w M stop :
  counters_agree (fst (migrate_sql_to_mysql w M stop))
  /\ applied (fst (migrate_sql_to_mysql w M stop))
     + failed (fst (migrate_sql_to_mysql w M stop))
     <= length (attempted (trace (fst (migrate_sql_to_mysql w M stop))))
  /\ (forall u, snd (migrate_sql_to_mysql w M stop) = Ret u ->
      exists c,
        console (fst (migrate_sql_to_mysql w M stop))
        = c ++ [Summary
                  (length (executed_ok
                     (trace (fst (migrate_sql_to_mysql w M stop)))))
                  (refused (trace (fst (migrate_sql_to_mysql w M stop))))]).
Proof.
  pose proof (migrate_keeps w M stop counters_agree
                (counters_agree_execute w stop)
                (fun s H => H)
                (counters_agree_call w)) as K.
  assert (H0 : counters_agree initial_driver) by (repeat split).
  specialize (K H0).
  destruct (migrate_sql_to_mysql w M stop) as [s [u|e]]; cbn [fst snd].
  - destruct K as [s0 [(A & F & R) Es]]. subst s.
    cbn [trace console applied failed].
    assert (C : counters_agree
                  (mkDriver (trace s0)
                     (console s0 ++ [Summary (applied s0) (failed s0)])
                     (applied s0) (failed s0) (batch s0))).
    { unfold counters_agree. cbn [trace console applied failed].
      rewrite reports_app.
      change (reports [Summary (applied s0) (failed s0)]) with 0.
      repeat split; lia. }
    split; [exact C|]. split.
    + pose proof (attempted_covers (trace s0)). lia.
    + intros u0 _. exists (console s0). rewrite <- A, <- F. reflexivity.
  - split; [exact K|]. split.
    + destruct K as (A & F & R). pose proof (attempted_covers (trace s)). lia.
    + intros u H. discriminate H.
Qed.

Lemma no_summary_call w c s :
  no_summary s -> no_summary (fst (invoke w c s)).
Proof. intros H. exact H. Qed.

Lemma no_summary_execute w stop n stmt s :
  no_summary s -> no_summary (fst (execute_statement w stop n stmt s)).
Proof.
  intros H.
  destruct (respond w (Execute n stmt)) as [[|]|] eqn:E.
  - rewrite (execute_statement_failed _ _ _ _ _ E). unfold no_summary in *.
    cbn [fst console]. rewrite forallb_app, H. reflexivity.
  - rewrite (execute_statement_crashed _ _ _ _ _ E). exact H.
  - rewrite (execute_statement_applied _ _ _ _ _ E). exact H.
Qed.

(** X13. The summary is printed exactly when the run returns, once, as the
    last thing printed; a run that raises, whatever the cause, prints no
    summary: the counts of an aborted run are never reported. *)
Theorem summary_only_on_return w M stop :
  match snd (migrate_sql_to_mysql w M stop) with
  | Ret _ =>
      exists c a f,
        console (fst (migrate_sql_to_mysql w M stop)) = c ++ [Summary a f]
        /\ forallb is_report c = true
  | Raise _ =>
      forallb is_report (console (fst (migrate_sql_to_mysql w M stop))) = true
  end.
Proof.
  pose proof (migrate_keeps w M stop no_summary
                (no_summary_execute w stop)
                (fun s H => H)
                (fun c s _ => no_summary_call w c s)) as K.
  specialize (K eq_refl).
  destruct (migrate_sql_to_mysql w M stop) as [s [u|e]]; cbn [fst snd].
  - destruct K as [s0 [H Es]]. subst s. cbn [console]. eauto.
  - exact K.
Qed.

(** X14. When one of the calls before the [try] raises (the connection,
    the cursor, the disabling of the checks, its commit, or the loader),
    the run ends there by raising: no statement is attempted, nothing is
    printed about statements, and the [finally] block is not entered, so
    the checks are not re-enabled and neither the cursor nor the connection
    is closed. *)
Theorem prologue_failure_ends_run w M stop :
  prologue_returns w = false ->
  (exists e, snd (migrate_sql_to_mysql w M stop) = Raise e)
  /\ attempted (trace (fst (migrate_sql_to_mysql w M stop))) = []
  /\ console (fst (migrate_sql_to_mysql w M stop)) = []
  /\ ~ In FkOn (map fst (trace (fst (migrate_sql_to_mysql w M stop))))
  /\ ~ In CursorClose (map fst (trace (fst (migrate_sql_to_mysql w M stop))))
  /\ ~ In ConnClose (map fst (trace (fst (migrate_sql_to_mysql w M stop)))).
Proof.
  unfold prologue_returns, migrate_sql_to_mysql, migrate_body, bind, invoke,
    initial_driver.
  cbn [trace console applied failed batch app].
  destruct (respond w Connect) as [e1|].
  { intros _. cbn [fst snd trace console]. simpl.
    repeat split; eauto; intuition discriminate. }
  cbn [trace console applied failed batch app].
  destruct (respond w OpenCursor) as [e2|].
  { intros _. cbn [fst snd trace console]. simpl.
    repeat split; eauto; intuition discriminate. }
  cbn [trace console applied failed batch app].
  destruct (respond w FkOff) as [e3|].
  { intros _. cbn [fst snd trace console]. simpl.
    repeat split; eauto; intuition discriminate. }
  cbn [trace console applied failed batch app].
  destruct (respond w FkOffCommit) as [e4|].
  { intros _. cbn [fst snd trace console]. simpl.
    repeat split; eauto; intuition discriminate. }
  cbn [trace console applied failed batch app].
  destruct (respond w OpenSource) as [e5|].
  { intros _. cbn [fst snd trace console]. simpl.
    repeat split; eauto; intuition discriminate. }
  discriminate.
Qed.

Lemma prologue_failure_ends_run_witness :
  (exists e, snd (migrate_sql_to_mysql source_unreachable 200 false) = Raise e)
  /\ attempted (trace (fst (migrate_sql_to_mysql source_unreachable 200 false)))
     = []
  /\ console (fst (migrate_sql_to_mysql source_unreachable 200 false)) = []
  /\ ~ In FkOn
        (map fst (trace (fst (migrate_sql_to_mysql source_unreachable 200 false))))
  /\ ~ In CursorClose
        (map fst (trace (fst (migrate_sql_to_mysql source_unreachable 200 false))))
  /\ ~ In ConnClose
        (map fst (trace (fst (migrate_sql_to_mysql source_unreachable 200 false)))).
Proof.
  apply (prologue_failure_ends_run source_unreachable 200 false). reflexivity.
Defined.

(** Lines 208-219 when the three closing calls return: the block returns,
    whatever the re-enabling of the checks and its commit do. *)
Lemma cleanup_swallows w s :
  respond w CursorClose = None -> respond w ConnClose = None ->
  respond w StreamClose = None ->
  snd (cleanup w s) = Ret tt.
Proof.
  intros H3 H4 H5. unfold cleanup, bind, try_except, invoke, ret.
  rewrite H3, H4, H5.
  destruct (respond w FkOn) as [e1|];
    [|destruct (respond w FkOnCommit) as [e2|]]; reflexivity.
Qed.

(** X15. A failure to re-enable the foreign-key checks, or of the commit
    that follows, is swallowed: with [stop_on_error] off and nothing else
    failing but K statements, the run still returns, has attempted every
    statement, and reports [applied = S - K] and [failed = K]. *)
Theorem cleanup_failure_swallowed w M K :
  (forall c, is_execute c = false -> c <> FkOn -> c <> FkOnCommit ->
             respond w c = None) ->
  (forall n stmt, respond w (Execute n stmt) <> Some OtherError) ->
  read_failure w = None ->
  failures w 0 (_sql_statement_stream (source_lines w)) = K ->
  snd (migrate_sql_to_mysql w M false) = Ret tt
  /\ attempted (trace (fst (migrate_sql_to_mysql w M false)))
     = _sql_statement_stream (source_lines w)
  /\ exists reports,
       console (fst (migrate_sql_to_mysql w M false))
       = reports
         ++ [Summary (length (_sql_statement_stream (source_lines w)) - K) K].
Proof.
  intros Hc Hx Hr HK.
  assert (Hc' : forall c, is_execute c = false -> c <> FkOn ->
                  c <> FkOnCommit -> respond w c = None) by exact Hc.
  rewrite migrate_reaches_try by (apply Hc; [reflexivity | discriminate..]).
  unfold try_finally, try_body, bind. rewrite (stmt_iter_whole w Hr).
  cbn [fst snd].
  destruct (for_statements_nonstop w M Hx
              (fun n => Hc (BatchCommit n) eq_refl ltac:(discriminate)
                           ltac:(discriminate))
              (_sql_statement_stream (source_lines w)) 0 after_prologue)
    as [s' (E & A & F & T)].
  rewrite E. unfold get.
  pose proof (successes_failures w (_sql_statement_stream (source_lines w)) 0) as SF.
  cbn [applied failed trace after_prologue] in A, F, T.
  assert (A' : applied s' = length (_sql_statement_stream (source_lines w)) - K) by lia.
  assert (F' : failed s' = K) by lia.
  assert (X : forall s1, attempted (trace s1) = attempted (trace s') ->
                applied s1 = applied s' -> failed s1 = failed s' ->
    snd (let (s2, r0) := cleanup w s1 in
         match r0 with
         | Ret _ => (s2, Ret tt)
         | Raise e => (s2, @Raise unit e)
         end) = Ret tt
    /\ attempted (trace (fst (let (s2, r0) := cleanup w s1 in
         match r0 with
         | Ret _ => (s2, Ret tt)
         | Raise e => (s2, @Raise unit e)
         end))) = attempted (trace s')
    /\ applied (fst (cleanup w s1)) = applied s'
    /\ failed (fst (cleanup w s1)) = failed s'
    /\ console (fst (cleanup w s1)) = console s1).
  { intros s1 Ta Aa Fa.
    pose proof (cleanup_swallows w s1
                  (Hc CursorClose eq_refl ltac:(discriminate) ltac:(discriminate))
                  (Hc ConnClose eq_refl ltac:(discriminate) ltac:(discriminate))
                  (Hc StreamClose eq_refl ltac:(discriminate) ltac:(discriminate)))
      as CS.
    destruct (cleanup_attempts_nothing w s1) as (CT & CA & CF & CC).
    destruct (cleanup w s1) as [s2 [u|e]]; cbn [fst snd] in *;
      [|discriminate CS].
    repeat split; congruence. }
  destruct (0 <? batch s').
  - rewrite (invoke_returns _ _ _
               (Hc FinalCommit eq_refl ltac:(discriminate) ltac:(discriminate))).
    match goal with |- context [cleanup w ?x] => set (s1 := x) end.
    destruct (X s1) as (X1 & X2 & X3 & X4 & X5).
    { subst s1. cbn [trace]. rewrite attempted_app. simpl.
      apply app_nil_r. }
    { reflexivity. } { reflexivity. }
    destruct (cleanup w s1) as [s2 [u|e]]; cbn [fst snd] in *;
      [|discriminate X1].
    cbn [fst snd trace console applied failed batch].
    rewrite X2, T, X3, X4, A', F'. simpl. repeat split; auto. eauto.
  - unfold ret.
    destruct (X s') as (X1 & X2 & X3 & X4 & X5); try reflexivity.
    destruct (cleanup w s') as [s2 [u|e]]; cbn [fst snd] in *;
      [|discriminate X1].
    cbn [fst snd trace console applied failed batch].
    rewrite X2, T, X3, X4, A', F'. simpl. repeat split; auto. eauto.
Qed.

Lemma cleanup_failure_swallowed_witness :
  snd (migrate_sql_to_mysql checks_stuck 2 false) = Ret tt
  /\ attempted (trace (fst (migrate_sql_to_mysql checks_stuck 2 false)))
     = _sql_statement_stream (source_lines checks_stuck)
  /\ exists reports,
       console (fst (migrate_sql_to_mysql checks_stuck 2 false))
       = reports
         ++ [Summary (length (_sql_statement_stream (source_lines checks_stuck)) - 1) 1].
Proof.
  apply (cleanup_failure_swallowed checks_stuck 2 1).
  - intros c Hc H1 H2. destruct c; try discriminate Hc; try reflexivity;
      congruence.
  - intros n stmt. simpl. destruct n as [|[|n]]; discriminate.
  - reflexivity.
  - reflexivity.
Defined.

Lemma prologue_returns_true w :
  prologue_returns w = true ->
  respond w Connect = None /\ respond w OpenCursor = None
  /\ respond w FkOff = None /\ respond w FkOffCommit = None
  /\ respond w OpenSource = None.
Proof.
  unfold prologue_returns.
  destruct (respond w Connect); [discriminate|].
  destruct (respond w OpenCursor); [discriminate|].
  destruct (respond w FkOff); [discriminate|].
  destruct (respond w FkOffCommit); [discriminate|].
  destruct (respond w OpenSource); [discriminate|]. auto.
Qed.

Lemma not_closed_call w c s :
  c <> ConnClose -> c <> StreamClose ->
  (~ In ConnClose (map fst (trace s)) /\ ~ In StreamClose (map fst (trace s))) ->
  ~ In ConnClose (map fst (trace (fst (invoke w c s))))
  /\ ~ In StreamClose (map fst (trace (fst (invoke w c s)))).
Proof.
  intros H1 H2 [A B]. unfold invoke. cbn [fst trace].
  rewrite map_app, !in_app_iff. simpl. split; intros [H|[H|[]]]; auto.
Qed.

Lemma not_closed_execute w stop n stmt s :
  (~ In ConnClose (map fst (trace s)) /\ ~ In StreamClose (map fst (trace s))) ->
  ~ In ConnClose (map fst (trace (fst (execute_statement w stop n stmt s))))
  /\ ~ In StreamClose (map fst (trace (fst (execute_statement w stop n stmt s)))).
Proof.
  intros [A B].
  destruct (respond w (Execute n stmt)) as [[|]|] eqn:E;
    [rewrite (execute_statement_failed _ _ _ _ _ E)
    |rewrite (execute_statement_crashed _ _ _ _ _ E)
    |rewrite (execute_statement_applied _ _ _ _ _ E)];
    cbn [fst trace]; rewrite map_app, !in_app_iff; simpl;
    split; intros [H|[H|[]]]; auto; discriminate.
Qed.

(** X16. When closing the cursor raises (line 217), the [finally] block
    ends there: the exception leaves the run, and neither [conn.close()]
    nor [stream.close()] is called, whatever the body of the [try] did. *)
Theorem cursor_close_failure_leaks w M stop e :
  prologue_returns w = true ->
  respond w CursorClose = Some e ->
  snd (migrate_sql_to_mysql w M stop) = Raise e
  /\ ~ In ConnClose (map fst (trace (fst (migrate_sql_to_mysql w M stop))))
  /\ ~ In StreamClose (map fst (trace (fst (migrate_sql_to_mysql w M stop)))).
Proof.
  intros Hp Hc. destruct (prologue_returns_true w Hp) as (H1 & H2 & H3 & H4 & H5).
  rewrite migrate_reaches_try by assumption.
  unfold try_finally.
  pose proof (try_body_keeps w M stop
    (fun s => ~ In ConnClose (map fst (trace s))
              /\ ~ In StreamClose (map fst (trace s)))
    (not_closed_execute w stop)
    (fun s H => H)
    (stmt_iter w)
    (fun n s0 => not_closed_call w (BatchCommit n) s0
                   ltac:(discriminate) ltac:(discriminate))
    (fun s0 => not_closed_call w FinalCommit s0
                 ltac:(discriminate) ltac:(discriminate))
    after_prologue) as K.
  assert (K0 : ~ In ConnClose (map fst (trace after_prologue))
               /\ ~ In StreamClose (map fst (trace after_prologue))).
  { simpl. split; intuition discriminate. }
  specialize (K K0).
  destruct (try_body w M stop (stmt_iter w) after_prologue) as [s1 r].
  cbn [fst] in K. destruct K as [KA KB].
  unfold cleanup, bind, try_except, invoke, ret.
  cbn [trace console applied failed batch]. rewrite Hc.
  destruct (respond w FkOn) as [e1|];
    [|destruct (respond w FkOnCommit) as [e2|]];
    cbn [fst snd trace]; (split; [reflexivity|]);
    rewrite !map_app, !in_app_iff; simpl;
    split; intuition discriminate.
Qed.

Lemma cursor_close_failure_leaks_witness :
  snd (migrate_sql_to_mysql cursor_stuck 200 false) = Raise MysqlError
  /\ ~ In ConnClose
        (map fst (trace (fst (migrate_sql_to_mysql cursor_stuck 200 false))))
  /\ ~ In StreamClose
        (map fst (trace (fst (migrate_sql_to_mysql cursor_stuck 200 false)))).
Proof.
  apply (cursor_close_failure_leaks cursor_stuck 200 false MysqlError);
    reflexivity.
Defined.

Lemma for_statements_every_turn w M stop :
  (M <= 0)%Z ->
  (forall n stmt, aborts w stop n stmt = false) ->
  (forall n, respond w (BatchCommit n) = None) ->
  forall stmts n s,
    exists s',
      for_statements w M stop n stmts s = (s', Ret tt)
      /\ trace s' = trace s ++ every_turn_schedule w n stmts
      /\ (stmts <> [] -> batch s' = 0)
      /\ (stmts = [] -> s' = s).
Proof.
  intros HM Ha Hc. induction stmts as [|stmt rest IH]; intros n s.
  - exists s. simpl. rewrite app_nil_r. repeat split; auto. congruence.
  - rewrite for_statements_cons. cbn [every_turn_schedule].
    pose proof (Ha n stmt) as An. unfold aborts in An.
    destruct (respond w (Execute n stmt)) as [[|]|] eqn:R.
    + subst stop. rewrite (execute_statement_failed _ _ _ _ _ R).
      rewrite periodic_commit_done;
        [| cbn [batch]; rewrite Z.geb_leb; apply Z.leb_le; lia | apply Hc].
      match goal with |- context [for_statements _ _ _ (S n) rest ?x] =>
        destruct (IH (S n) x) as [s' (E & T & B & B0)] end.
      exists s'. rewrite E, T. cbn [trace].
      rewrite <- !app_assoc. repeat split; try discriminate.
      intros _. destruct rest as [|r0 rest'].
      * rewrite (B0 eq_refl). reflexivity.
      * apply B. discriminate.
    + discriminate An.
    + rewrite (execute_statement_applied _ _ _ _ _ R).
      rewrite periodic_commit_done;
        [| cbn [batch]; rewrite Z.geb_leb; apply Z.leb_le; lia | apply Hc].
      match goal with |- context [for_statements _ _ _ (S n) rest ?x] =>
        destruct (IH (S n) x) as [s' (E & T & B & B0)] end.
      exists s'. rewrite E, T. cbn [trace].
      rewrite <- !app_assoc. repeat split; try discriminate.
      intros _. destruct rest as [|r0 rest'].
      * rewrite (B0 eq_refl). reflexivity.
      * apply B. discriminate.
Qed.

(** X17. With [commit_every] zero or negative the test [batch >=
    commit_every] of line 200 always holds: when nothing ends the run
    early, a commit follows every statement, the refused ones too, and no
    final commit is issued. *)
Theorem nonpositive_commit_every w M stop :
  (M <= 0)%Z ->
  (forall c, is_execute c = false -> respond w c = None) ->
  read_failure w = None ->
  (forall n stmt, aborts w stop n stmt = false) ->
  trace (fst (migrate_sql_to_mysql w M stop))
  = prologue_events
    ++ every_turn_schedule w 0 (_sql_statement_stream (source_lines w))
    ++ cleanup_events.
Proof.
  intros HM Hc Hr Ha.
  rewrite migrate_reaches_try by (apply Hc; reflexivity).
  unfold try_finally, try_body, bind. rewrite (stmt_iter_whole w Hr).
  cbn [fst snd].
  destruct (for_statements_every_turn w M stop HM Ha
              (fun n => Hc (BatchCommit n) eq_refl)
              (_sql_statement_stream (source_lines w)) 0 after_prologue)
    as [s' (E & T & B & B0)].
  rewrite E. unfold get.
  assert (Bz : batch s' = 0).
  { destruct (_sql_statement_stream (source_lines w)) as [|x l].
    - rewrite (B0 eq_refl). reflexivity.
    - apply B. discriminate. }
  rewrite Bz. cbn [Nat.ltb Nat.leb]. unfold ret.
  rewrite cleanup_returns by (apply Hc; reflexivity).
  cbn [fst trace]. rewrite T. cbn [after_prologue trace].
  rewrite <- app_assoc. reflexivity.
Qed.

Lemma nonpositive_commit_every_witness :
  trace (fst (migrate_sql_to_mysql one_refused 0 false))
  = prologue_events
    ++ every_turn_schedule one_refused 0
         (_sql_statement_stream (source_lines one_refused))
    ++ cleanup_events.
Proof.
  apply (nonpositive_commit_every one_refused 0 false).
  - lia.
  - intros c Hc; destruct c; try discriminate Hc; reflexivity.
  - reflexivity.
  - intros n stmt. unfold aborts. simpl.
    destruct n as [|[|n]]; reflexivity.
Defined.

(** What the loop adds to the trace, in any world: calls of the loop only,
    attempting the statements in order from the first, all of them when it
    returns; and a periodic commit that raises is its last call. *)
Lemma for_statements_trace w M stop : forall rest n s,
  exists t k,
    trace (fst (for_statements w M stop n rest s)) = trace s ++ t
    /\ k <= length rest
    /\ attempted t = firstn k rest
    /\ forallb is_loop_event t = true
    /\ (forall u, snd (for_statements w M stop n rest s) = Ret u ->
          k = length rest)
    /\ (forall j e, In (BatchCommit j, Some e) t ->
          n <= j /\ k = j - n + 1
          /\ snd (for_statements w M stop n rest s) = Raise e)
    /\ (forall j x e, In (Execute j x, Some e) t ->
          e = OtherError \/ stop = true ->
          n <= j /\ k = j - n + 1
          /\ snd (for_statements w M stop n rest s) = Raise e).
Proof.
  induction rest as [|stmt rest IH]; intros n s.
  - exists [], 0. simpl. rewrite app_nil_r.
    repeat split; auto; contradiction.
  - rewrite for_statements_cons.
    assert (Stop : forall r (st1 : driver_state) (e0 : exn),
      r = Some e0 ->
      trace st1 = trace s ++ [(Execute n stmt, r)] ->
      exists t k,
        trace (fst (st1, @Raise unit e0)) = trace s ++ t
        /\ k <= length (stmt :: rest)
        /\ attempted t = firstn k (stmt :: rest)
        /\ forallb is_loop_event t = true
        /\ (forall u, snd (st1, @Raise unit e0) = Ret u ->
              k = length (stmt :: rest))
        /\ (forall j e, In (BatchCommit j, Some e) t ->
              n <= j /\ k = j - n + 1
              /\ snd (st1, @Raise unit e0) = Raise e)
        /\ (forall j x e, In (Execute j x, Some e) t ->
              e = OtherError \/ stop = true ->
              n <= j /\ k = j - n + 1
              /\ snd (st1, @Raise unit e0) = Raise e)).
    { intros r st1 e0 Er T. exists [(Execute n stmt, r)], 1. cbn [fst snd].
      split; [exact T|]. split; [simpl; lia|]. split; [reflexivity|].
      split; [reflexivity|]. split; [intros u H; discriminate H|]. split.
      - intros j e [H|[]]. discriminate H.
      - intros j x e [H|[]] _. inversion H; subst. inversion H3; subst.
        repeat split; auto; lia. }
    assert (Go : forall r (s1 : driver_state),
      (forall e, r = Some e -> e = MysqlError /\ stop = false) ->
      trace s1 = trace s ++ [(Execute n stmt, r)] ->
      exists t k,
        trace (fst (match periodic_commit w M n s1 with
                    | (s2, Ret _) => for_statements w M stop (S n) rest s2
                    | (s2, Raise e) => (s2, Raise e)
                    end)) = trace s ++ t
        /\ k <= length (stmt :: rest)
        /\ attempted t = firstn k (stmt :: rest)
        /\ forallb is_loop_event t = true
        /\ (forall u, snd (match periodic_commit w M n s1 with
                    | (s2, Ret _) => for_statements w M stop (S n) rest s2
                    | (s2, Raise e) => (s2, Raise e)
                    end) = Ret u -> k = length (stmt :: rest))
        /\ (forall j e, In (BatchCommit j, Some e) t ->
              n <= j /\ k = j - n + 1
              /\ snd (match periodic_commit w M n s1 with
                    | (s2, Ret _) => for_statements w M stop (S n) rest s2
                    | (s2, Raise e) => (s2, Raise e)
                    end) = Raise e)
        /\ (forall j x e, In (Execute j x, Some e) t ->
              e = OtherError \/ stop = true ->
              n <= j /\ k = j - n + 1
              /\ snd (match periodic_commit w M n s1 with
                    | (s2, Ret _) => for_statements w M stop (S n) rest s2
                    | (s2, Raise e) => (s2, Raise e)
                    end) = Raise e)).
    { intros r s1 Hr T1.
      assert (Head : forall j x e, (Execute n stmt, r) = (Execute j x, Some e) ->
                e = OtherError \/ stop = true -> False).
      { intros j x e H Hc. inversion H; subst.
        destruct (Hr e eq_refl) as [-> ->].
        destruct Hc; discriminate. }
      destruct (Z.of_nat (batch s1) >=? M)%Z eqn:B.
      - destruct (respond w (BatchCommit n)) as [e0|] eqn:Rc.
        + rewrite (periodic_commit_raised _ _ _ _ _ B Rc).
          exists [(Execute n stmt, r); (BatchCommit n, Some e0)], 1.
          cbn [fst snd trace].
          split; [rewrite T1, <- app_assoc; reflexivity|].
          split; [simpl; lia|]. split; [reflexivity|].
          split; [reflexivity|]. split; [intros u H; discriminate H|]. split.
          * intros j e [H|[H|[]]]; inversion H; subst.
            repeat split; auto; lia.
          * intros j x e [H|[H|[]]] Hc; [|discriminate H].
            elim (Head _ _ _ H Hc).
        + rewrite (periodic_commit_done _ _ _ _ B Rc).
          match goal with |- context [for_statements _ _ _ (S n) rest ?x] =>
            destruct (IH (S n) x) as [t [k (E & Kl & At & Lp & Rt & Cf & Xf)]] end.
          exists ((Execute n stmt, r) :: (BatchCommit n, None) :: t), (S k).
          split; [rewrite E; cbn [trace]; rewrite T1, <- !app_assoc;
                  reflexivity|].
          split; [simpl; lia|]. split.
          { change ((Execute n stmt, r) :: (BatchCommit n, None) :: t)
              with ([(Execute n stmt, r); (BatchCommit n, None)] ++ t).
            rewrite attempted_app, At. reflexivity. }
          split; [exact Lp|].
          split; [intros u H; rewrite (Rt u H); reflexivity|]. split.
          * intros j e [H|[H|H]]; try discriminate H.
            destruct (Cf j e H) as (C1 & C2 & C3).
            repeat split; auto; lia.
          * intros j x e [H|[H|H]] Hc;
              [elim (Head _ _ _ H Hc) | discriminate H |].
            destruct (Xf j x e H Hc) as (C1 & C2 & C3).
            repeat split; auto; lia.
      - rewrite (periodic_commit_skipped _ _ _ _ B).
        destruct (IH (S n) s1) as [t [k (E & Kl & At & Lp & Rt & Cf & Xf)]].
        exists ((Execute n stmt, r) :: t), (S k).
        split; [rewrite E, T1, <- !app_assoc; reflexivity|].
        split; [simpl; lia|]. split.
        { change ((Execute n stmt, r) :: t) with ([(Execute n stmt, r)] ++ t).
          rewrite attempted_app, At. reflexivity. }
        split; [exact Lp|].
        split; [intros u H; rewrite (Rt u H); reflexivity|]. split.
        * intros j e [H|H]; try discriminate H.
          destruct (Cf j e H) as (C1 & C2 & C3).
          repeat split; auto; lia.
        * intros j x e [H|H] Hc; [elim (Head _ _ _ H Hc)|].
          destruct (Xf j x e H Hc) as (C1 & C2 & C3).
          repeat split; auto; lia. }
    destruct (respond w (Execute n stmt)) as [[|]|] eqn:R.
    + rewrite (execute_statement_failed _ _ _ _ _ R). destruct stop.
      * apply (Stop (Some MysqlError)); reflexivity.
      * apply (Go (Some MysqlError)); [|reflexivity].
        intros e H. inversion H; auto.
    + rewrite (execute_statement_crashed _ _ _ _ _ R).
      apply (Stop (Some OtherError)); reflexivity.
    + rewrite (execute_statement_applied _ _ _ _ _ R).
      apply (Go None); [|reflexivity]. intros e H. discriminate H.
Qed.

Lemma cleanup_trace w s :
  exists ct,
    trace (fst (cleanup w s)) = trace s ++ ct
    /\ forallb is_cleanup_event ct = true.
Proof.
  unfold cleanup, bind, try_except, invoke, ret.
  cbn [trace console applied failed batch].
  destruct (respond w FkOn) as [e1|];
    [|destruct (respond w FkOnCommit) as [e2|]];
    cbn [trace console applied failed batch];
    (destruct (respond w CursorClose) as [e3|];
     [|destruct (respond w ConnClose) as [e4|];
       [|destruct (respond w StreamClose) as [e5|]]]);
    cbn [fst trace];
    rewrite <- ?app_assoc;
    (eexists; split; [reflexivity|]; reflexivity).
Qed.

Lemma cleanup_events_facts ct :
  forallb is_cleanup_event ct = true ->
  attempted ct = []
  /\ ~ In FinalCommit (map fst ct)
  /\ (forall j r, ~ In (BatchCommit j, r) ct).
Proof.
  induction ct as [|[c r] ct IH]; intros H.
  - repeat split; auto.
  - cbn [forallb] in H. apply andb_true_iff in H as [Hc H].
    destruct (IH H) as (A & F & B).
    change ((c, r) :: ct) with ([(c, r)] ++ ct). rewrite attempted_app, A.
    destruct c; try discriminate Hc;
      (split; [reflexivity|]; split;
       [intros [X|X]; [discriminate X | exact (F X)]
       | intros j r0 [X|X]; [discriminate X | exact (B _ _ X)]]).
Qed.

Lemma loop_events_facts t :
  forallb is_loop_event t = true -> ~ In FinalCommit (map fst t).
Proof.
  induction t as [|[c r] t IH]; intros H; [intros []|].
  cbn [forallb] in H. apply andb_true_iff in H as [Hc H].
  intros [X|X]; [|exact (IH H X)].
  simpl in X. subst c. discriminate Hc.
Qed.

(** The shape of the trace of a run that passed the prologue: the calls of
    the loop, then the final commit or nothing, then the calls of the
    [finally] block. *)
Ltac shape_rest Cf Xf :=
  repeat split; auto;
  try match goal with H : Raise _ = Ret _ |- _ => discriminate H end;
  try match goal with
      | H : In (BatchCommit _, Some _) _ |- _ =>
          let X := fresh "X" in
          destruct (Cf _ _ H) as (? & ? & X);
          first [discriminate X | lia | eauto]
      | H : In (Execute _ _, Some _) _, Hc : _ \/ _ |- _ =>
          let X := fresh "X" in
          destruct (Xf _ _ _ H Hc) as (? & ? & X);
          first [discriminate X | lia | eauto]
      end.

Lemma migrate_shape w M stop :
  prologue_returns w = true ->
  exists t k fc ct,
    trace (fst (migrate_sql_to_mysql w M stop))
    = prologue_events ++ t ++ fc ++ ct
    /\ k <= length (fst (stmt_iter w))
    /\ attempted t = firstn k (fst (stmt_iter w))
    /\ forallb is_loop_event t = true
    /\ forallb is_cleanup_event ct = true
    /\ (fc = []
        \/ (fc = [(FinalCommit, respond w FinalCommit)]
            /\ k = length (fst (stmt_iter w)) /\ read_failure w = None))
    /\ (forall u, snd (migrate_sql_to_mysql w M stop) = Ret u ->
          k = length (fst (stmt_iter w)) /\ read_failure w = None)
    /\ (forall j e, In (BatchCommit j, Some e) t ->
          k = j + 1 /\ fc = []
          /\ exists e', snd (migrate_sql_to_mysql w M stop) = Raise e')
    /\ (forall j x e, In (Execute j x, Some e) t ->
          e = OtherError \/ stop = true ->
          k = j + 1 /\ fc = []
          /\ exists e', snd (migrate_sql_to_mysql w M stop) = Raise e').
Proof.
  intros Hp. destruct (prologue_returns_true w Hp) as (H1 & H2 & H3 & H4 & H5).
  rewrite migrate_reaches_try by assumption.
  unfold try_finally, try_body, bind.
  destruct (for_statements_trace w M stop (fst (stmt_iter w)) 0 after_prologue)
    as [t [k (E & Kl & At & Lp & Rt & Cf & Xf)]].
  assert (Hrf : snd (stmt_iter w) = None -> read_failure w = None).
  { unfold stmt_iter. destruct (read_failure w); [discriminate | reflexivity]. }
  destruct (for_statements w M stop 0 (fst (stmt_iter w)) after_prologue)
    as [s1 [u1|e1]]; cbn [fst snd] in *.
  - specialize (Rt u1 eq_refl).
    destruct (snd (stmt_iter w)) as [e2|] eqn:Si.
    + unfold raise. destruct (cleanup_trace w s1) as [ct [Ec Hc]].
      exists t, k, [], ct.
      assert (Tr : trace (fst (cleanup w s1)) = prologue_events ++ t ++ [] ++ ct).
      { rewrite Ec, E. cbn [after_prologue trace]. rewrite <- app_assoc.
        reflexivity. }
      destruct (cleanup w s1) as [s2 [u2|e3]]; cbn [fst snd] in *;
        (split; [exact Tr|]; shape_rest Cf Xf).
    + unfold get. destruct (0 <? batch s1).
      * unfold invoke.
        match goal with |- context [cleanup w ?x] => set (s1' := x) end.
        destruct (cleanup_trace w s1') as [ct [Ec Hc]].
        exists t, k, [(FinalCommit, respond w FinalCommit)], ct.
        assert (Tr : trace (fst (cleanup w s1'))
                     = prologue_events ++ t
                       ++ [(FinalCommit, respond w FinalCommit)] ++ ct).
        { rewrite Ec. subst s1'. cbn [trace]. rewrite E.
          cbn [after_prologue trace]. rewrite <- !app_assoc. reflexivity. }
        destruct (respond w FinalCommit) as [ef|];
          destruct (cleanup w s1') as [s2 [u2|e3]]; cbn [fst snd] in *;
          (split; [exact Tr|]; shape_rest Cf Xf).
      * unfold ret.
        destruct (cleanup_trace w s1) as [ct [Ec Hc]].
        exists t, k, [], ct.
        assert (Tr : trace (fst (cleanup w s1)) = prologue_events ++ t ++ [] ++ ct).
        { rewrite Ec, E. cbn [after_prologue trace]. rewrite <- app_assoc.
          reflexivity. }
        destruct (cleanup w s1) as [s2 [u2|e3]]; cbn [fst snd] in *;
          (split; [exact Tr|]; shape_rest Cf Xf).
  - destruct (cleanup_trace w s1) as [ct [Ec Hc]].
    exists t, k, [], ct.
    assert (Tr : trace (fst (cleanup w s1)) = prologue_events ++ t ++ [] ++ ct).
    { rewrite Ec, E. cbn [after_prologue trace]. rewrite <- app_assoc.
      reflexivity. }
    destruct (cleanup w s1) as [s2 [u2|e3]]; cbn [fst snd] in *;
      (split; [exact Tr|]; shape_rest Cf Xf).
Qed.

Lemma prologue_shape w M stop :
  prologue_returns w = false ->
  attempted (trace (fst (migrate_sql_to_mysql w M stop))) = []
  /\ (exists e, snd (migrate_sql_to_mysql w M stop) = Raise e)
  /\ forallb (fun ev => negb (is_loop_event ev) && negb (is_commit (fst ev))
                        || match fst ev with FkOffCommit => true | _ => false end)
             (trace (fst (migrate_sql_to_mysql w M stop))) = true.
Proof.
  unfold prologue_returns, migrate_sql_to_mysql, migrate_body, bind, invoke,
    initial_driver.
  cbn [trace console applied failed batch app].
  destruct (respond w Connect) as [e1|].
  { intros _. cbn [fst snd trace]. repeat split; eauto. }
  cbn [trace console applied failed batch app].
  destruct (respond w OpenCursor) as [e2|].
  { intros _. cbn [fst snd trace]. repeat split; eauto. }
  cbn [trace console applied failed batch app].
  destruct (respond w FkOff) as [e3|].
  { intros _. cbn [fst snd trace]. repeat split; eauto. }
  cbn [trace console applied failed batch app].
  destruct (respond w FkOffCommit) as [e4|].
  { intros _. cbn [fst snd trace]. repeat split; eauto. }
  cbn [trace console applied failed batch app].
  destruct (respond w OpenSource) as [e5|].
  { intros _. cbn [fst snd trace]. repeat split; eauto. }
  discriminate.
Qed.

(** A run that returns has attempted every statement of the iterator. *)
Lemma returned_run_attempts_all w M stop u :
  snd (migrate_sql_to_mysql w M stop) = Ret u ->
  attempted (trace (fst (migrate_sql_to_mysql w M stop))) = fst (stmt_iter w).
Proof.
  intros H. destruct (prologue_returns w) eqn:Hp.
  - destruct (migrate_shape w M stop Hp)
      as [t [k [fc [ct (Tr & Kl & At & Lp & Hc & Hf & Rt & Cf & Xf)]]]].
    destruct (cleanup_events_facts ct Hc) as (Ac & _ & _).
    destruct (Rt u H) as [Ek _].
    rewrite Tr, !attempted_app, At, Ac, Ek, firstn_all.
    destruct Hf as [-> | [-> _]]; simpl; rewrite ?app_nil_r; reflexivity.
  - destruct (prologue_shape w M stop Hp) as (_ & [e E] & _).
    rewrite E in H. discriminate H.
Qed.

(** X18. In every run, whatever fails, the statements attempted are an
    initial part of the statements the iterator yields, each once and in
    order: none is skipped, repeated or taken out of turn; and a run that
    returns has attempted all of them, from a stream that was read to its
    end. *)
Theorem statements_attempted_in_order w M stop :
  (exists k,
     attempted (trace (fst (migrate_sql_to_mysql w M stop)))
     = firstn k (fst (stmt_iter w)))
  /\ (forall u, snd (migrate_sql_to_mysql w M stop) = Ret u ->
      attempted (trace (fst (migrate_sql_to_mysql w M stop)))
      = fst (stmt_iter w)
      /\ read_failure w = None).
Proof.
  destruct (prologue_returns w) eqn:Hp.
  - destruct (migrate_shape w M stop Hp)
      as [t [k [fc [ct (Tr & Kl & At & Lp & Hc & Hf & Rt & Cf & Xf)]]]].
    destruct (cleanup_events_facts ct Hc) as (Ac & _ & _).
    assert (Af : attempted fc = []).
    { destruct Hf as [-> | [-> _]]; reflexivity. }
    assert (A : attempted (trace (fst (migrate_sql_to_mysql w M stop)))
                = firstn k (fst (stmt_iter w))).
    { rewrite Tr, !attempted_app, At, Af, Ac. simpl. apply app_nil_r. }
    split; [eauto|]. intros u H. destruct (Rt u H) as [Ek Er].
    split; [|exact Er]. rewrite A, Ek. apply firstn_all.
  - destruct (prologue_shape w M stop Hp) as (A & [e E] & _).
    split; [exists 0; rewrite A; reflexivity|].
    intros u H. rewrite E in H. discriminate H.
Qed.

(** X19. A periodic commit that raises ends the run, also with
    [stop_on_error] off: when the commit after the statement of index [j]
    raises, the statements attempted are exactly those up to index [j], no
    final commit is issued, and the run raises. *)
Theorem commit_failure_ends_run w M stop j e :
  In (BatchCommit j, Some e) (trace (fst (migrate_sql_to_mysql w M stop))) ->
  attempted (trace (fst (migrate_sql_to_mysql w M stop)))
  = firstn (j + 1) (fst (stmt_iter w))
  /\ ~ In FinalCommit
        (map fst (trace (fst (migrate_sql_to_mysql w M stop))))
  /\ exists e', snd (migrate_sql_to_mysql w M stop) = Raise e'.
Proof.
  intros Hin. destruct (prologue_returns w) eqn:Hp.
  - destruct (migrate_shape w M stop Hp)
      as [t [k [fc [ct (Tr & Kl & At & Lp & Hc & Hf & Rt & Cf & Xf)]]]].
    destruct (cleanup_events_facts ct Hc) as (Ac & Fc & Bc).
    rewrite Tr in Hin |- *.
    assert (Ht : In (BatchCommit j, Some e) t).
    { rewrite !in_app_iff in Hin. destruct Hin as [H|[H|[H|H]]].
      - simpl in H. intuition discriminate.
      - exact H.
      - destruct Hf as [-> | [-> _]]; simpl in H; intuition discriminate.
      - elim (Bc _ _ H). }
    destruct (Cf j e Ht) as (Ek & Efc & Er). subst fc k.
    split; [|split; [|exact Er]].
    + rewrite !attempted_app, At, Ac. simpl. apply app_nil_r.
    + rewrite !map_app, !in_app_iff. intros [H|[H|[H|H]]].
      * simpl in H. intuition discriminate.
      * exact (loop_events_facts t Lp H).
      * exact H.
      * exact (Fc H).
  - exfalso. destruct (prologue_shape w M stop Hp) as (_ & _ & F).
    rewrite forallb_forall in F. specialize (F _ Hin). discriminate F.
Qed.

Lemma commit_failure_ends_run_witness :
  attempted (trace (fst (migrate_sql_to_mysql commit_refused 2 false)))
  = firstn (1 + 1) (fst (stmt_iter commit_refused))
  /\ ~ In FinalCommit
        (map fst (trace (fst (migrate_sql_to_mysql commit_refused 2 false))))
  /\ exists e', snd (migrate_sql_to_mysql commit_refused 2 false) = Raise e'.
Proof.
  apply (commit_failure_ends_run commit_refused 2 false 1 MysqlError).
  vm_compute. tauto.
Defined.

(** X20. The final commit of line 206 is issued only after the loop went
    through every statement of a stream that was read to its end: a run
    that stops early, for whatever reason, never issues it. *)
Theorem final_commit_only_after_all w M stop :
  In FinalCommit (map fst (trace (fst (migrate_sql_to_mysql w M stop)))) ->
  attempted (trace (fst (migrate_sql_to_mysql w M stop)))
  = fst (stmt_iter w)
  /\ read_failure w = None.
Proof.
  intros Hin. destruct (prologue_returns w) eqn:Hp.
  - destruct (migrate_shape w M stop Hp)
      as [t [k [fc [ct (Tr & Kl & At & Lp & Hc & Hf & Rt & Cf & Xf)]]]].
    destruct (cleanup_events_facts ct Hc) as (Ac & Fc & Bc).
    rewrite Tr in Hin |- *.
    rewrite !map_app, !in_app_iff in Hin.
    destruct Hf as [-> | (-> & Ek & Er)].
    + exfalso. destruct Hin as [H|[H|[H|H]]].
      * simpl in H. intuition discriminate.
      * exact (loop_events_facts t Lp H).
      * exact H.
      * exact (Fc H).
    + split; [|exact Er].
      rewrite !attempted_app, At, Ac, Ek. simpl.
      rewrite app_nil_r. apply firstn_all.
  - exfalso. destruct (prologue_shape w M stop Hp) as (_ & _ & F).
    rewrite forallb_forall in F. apply in_map_iff in Hin as [[c r] [Ec Hin]].
    simpl in Ec. subst c. specialize (F _ Hin). discriminate F.
Qed.

Lemma final_commit_only_after_all_witness :
  attempted (trace (fst (migrate_sql_to_mysql one_refused 200 false)))
  = fst (stmt_iter one_refused)
  /\ read_failure one_refused = None.
Proof.
  apply (final_commit_only_after_all one_refused 200 false).
  vm_compute. tauto.
Defined.

(** X21. Only connector errors are tolerated by the loop: when
    [cur.execute] raises any other exception, or any exception with
    [stop_on_error] on, the run ends at that statement, in every
    environment: the statements attempted are exactly those up to it, no
    final commit is issued, and the run raises. *)
Theorem execute_failure_ends_run w M stop j x e :
  In (Execute j x, Some e) (trace (fst (migrate_sql_to_mysql w M stop))) ->
  e = OtherError \/ stop = true ->
  attempted (trace (fst (migrate_sql_to_mysql w M stop)))
  = firstn (j + 1) (fst (stmt_iter w))
  /\ ~ In FinalCommit
        (map fst (trace (fst (migrate_sql_to_mysql w M stop))))
  /\ exists e', snd (migrate_sql_to_mysql w M stop) = Raise e'.
Proof.
  intros Hin He. destruct (prologue_returns w) eqn:Hp.
  - destruct (migrate_shape w M stop Hp)
      as [t [k [fc [ct (Tr & Kl & At & Lp & Hc & Hf & Rt & Cf & Xf)]]]].
    destruct (cleanup_events_facts ct Hc) as (Ac & Fc & Bc).
    rewrite Tr in Hin |- *.
    assert (Ht : In (Execute j x, Some e) t).
    { rewrite !in_app_iff in Hin. destruct Hin as [H|[H|[H|H]]].
      - simpl in H. intuition discriminate.
      - exact H.
      - destruct Hf as [-> | [-> _]]; simpl in H; intuition discriminate.
      - rewrite forallb_forall in Hc. specialize (Hc _ H). discriminate Hc. }
    destruct (Xf j x e Ht He) as (Ek & Efc & Er). subst fc k.
    split; [|split; [|exact Er]].
    + rewrite !attempted_app, At, Ac. simpl. apply app_nil_r.
    + rewrite !map_app, !in_app_iff. intros [H|[H|[H|H]]].
      * simpl in H. intuition discriminate.
      * exact (loop_events_facts t Lp H).
      * exact H.
      * exact (Fc H).
  - exfalso. destruct (prologue_shape w M stop Hp) as (_ & _ & F).
    rewrite forallb_forall in F. specialize (F _ Hin). discriminate F.
Qed.

Lemma execute_failure_ends_run_witness :
  attempted (trace (fst (migrate_sql_to_mysql execute_crashes 200 false)))
  = firstn (1 + 1) (fst (stmt_iter execute_crashes))
  /\ ~ In FinalCommit
        (map fst (trace (fst (migrate_sql_to_mysql execute_crashes 200 false))))
  /\ exists e', snd (migrate_sql_to_mysql execute_crashes 200 false) = Raise e'.
Proof.
  apply (execute_failure_ends_run execute_crashes 200 false 1 (py "INSERT 2")
           OtherError).
  - vm_compute. tauto.
  - left. reflexivity.
Defined.

(** ** Of the loader with the driver *)

(** X22. A source that is neither a URL nor an existing file is replayed
    as its own text: the loader cannot raise, the stream cuts the text at
    LF only and is read to its end, so the statements of the run are those
    of the text, and a run that returns has attempted exactly them, in
    order. *)
Theorem inline_source_replayed o answers source M stop :
  is_url source = false ->
  isfile o source = false ->
  respond (world_for o answers source) OpenSource = None
  /\ stmt_iter (world_for o answers source)
     = (_sql_statement_stream (readlines source), None)
  /\ (forall u,
        snd (migrate_sql_to_mysql (world_for o answers source) M stop) = Ret u ->
        attempted (trace (fst (migrate_sql_to_mysql
                                 (world_for o answers source) M stop)))
        = _sql_statement_stream (readlines source)).
Proof.
  intros Hu Hf.
  assert (W : world_for o answers source
              = mkWorld (fun c => match c with
                                  | OpenSource => None
                                  | _ => answers c
                                  end)
                        (readlines source) None).
  { unfold world_for, _open_sql_source. unfold is_url in Hu.
    rewrite Hu, Hf. reflexivity. }
  rewrite W. split; [reflexivity|]. split; [reflexivity|].
  intros u H.
  exact (returned_run_attempts_all _ M stop u H).
Qed.

Lemma inline_source_replayed_witness :
  respond (world_for nothing_outside (fun _ => None) (py "A; B;")) OpenSource
  = None
  /\ stmt_iter (world_for nothing_outside (fun _ => None) (py "A; B;"))
     = (_sql_statement_stream (readlines (py "A; B;")), None)
  /\ (forall u,
        snd (migrate_sql_to_mysql
               (world_for nothing_outside (fun _ => None) (py "A; B;")) 200 false)
        = Ret u ->
        attempted (trace (fst (migrate_sql_to_mysql
                     (world_for nothing_outside (fun _ => None) (py "A; B;"))
                     200 false)))
        = _sql_statement_stream (readlines (py "A; B;"))).
Proof.
  apply (inline_source_replayed nothing_outside (fun _ => None) (py "A; B;")
           200 false); reflexivity.
Defined.
